(** * RP_Log: ring-buffer log facility (RP_Log.c / RP_Log.h)

    A shallow embedding of the ring buffer, the level filter, the record
    formatter and the four operations of the facility, with the properties
    the specification states about them.

    Conventions.
    - [uint16_t] and [int] values are [Z]; a store into a [uint16_t] field is
      written out with [uint16].
    - A byte ([uint8_t], [char]) is an [ascii]; a C array is a [list ascii];
      a C string is a [string] holding the characters before the terminator.
    - Functions that write through a pointer return the new contents of what
      is pointed to; an uninitialised local array is an argument of the
      function that declares it, so that nothing is assumed of its contents. *)

From Stdlib Require Import ZArith List Ascii String Lia Bool DecimalString.
From stdpp Require Import base list.

Local Open Scope Z_scope.

(* ================================================================= *)
(** ** Machine integers and memory *)

(** Conversion to [uint16_t]. *)
Definition uint16 (z : Z) : Z := z mod 65536.

(** [memcpy(dst, src, n)]: the first [n] bytes of [dst] are replaced by the
    first [n] bytes of [src].  Both arrays must hold [n] bytes, as C
    requires. *)
Definition memcpy (dst src : list ascii) (n : Z) : list ascii :=
  take (Z.to_nat n) src ++ drop (Z.to_nat n) dst.

(** [a[i] = c] on a byte array. *)
Definition store (a : list ascii) (i : Z) (c : ascii) : list ascii :=
  <[Z.to_nat i := c]> a.

(* ================================================================= *)
(** ** RP_Log.h: constants and types *)

Definition RP_LOG_ENTRY_MAX_SIZE : Z := 256.
Definition RP_LOG_RING_BUFFER_CNT : Z := 16.

Inductive RP_LogLevel_t : Set :=
| RP_LOG_LEVEL_FATAL
| RP_LOG_LEVEL_ERROR
| RP_LOG_LEVEL_WARN
| RP_LOG_LEVEL_INFO
| RP_LOG_LEVEL_DEBUG
| RP_LOG_LEVEL_TRACE.

(** The enumerators' values: [RP_LOG_LEVEL_FATAL = 0], then counting up. *)
Definition level_value (l : RP_LogLevel_t) : Z :=
  match l with
  | RP_LOG_LEVEL_FATAL => 0
  | RP_LOG_LEVEL_ERROR => 1
  | RP_LOG_LEVEL_WARN => 2
  | RP_LOG_LEVEL_INFO => 3
  | RP_LOG_LEVEL_DEBUG => 4
  | RP_LOG_LEVEL_TRACE => 5
  end.

Inductive RP_LogOutputRange_t : Set :=
| RP_LOG_OUTPUT_FATAL_ONLY
| RP_LOG_OUTPUT_FATAL_TO_ERROR
| RP_LOG_OUTPUT_FATAL_TO_WARN
| RP_LOG_OUTPUT_FATAL_TO_INFO
| RP_LOG_OUTPUT_FATAL_TO_DEBUG
| RP_LOG_OUTPUT_ALL.

Record RP_LogConfigParam_t : Type := {
  output_range : RP_LogOutputRange_t;
  use_timestamp : Z;
  rtt_use_color : Z
}.

(** One slot of the ring buffer: [data[RP_LOG_ENTRY_MAX_SIZE]] and [length]. *)
Record RP_LogEntry_t : Type := {
  e_data : list ascii;
  e_length : Z
}.

(** [entries[RP_LOG_RING_BUFFER_CNT]], [head] (write index), [tail] (read
    index) and [count]. *)
Record RP_LogRingBuffer_t : Type := {
  rb_entries : list RP_LogEntry_t;
  rb_head : Z;
  rb_tail : Z;
  rb_count : Z
}.

(** The facility.  Its four function pointers are bound once, in the
    initialiser of [g_rp_log], to the functions below and are not modelled
    as fields. *)
Record RP_Log_t : Type := {
  config_param : RP_LogConfigParam_t;
  ring_buffer : RP_LogRingBuffer_t
}.

(** An all-zero slot and an all-zero ring buffer: what [= {0}] and
    [memset(.., 0, ..)] leave. *)
Definition zero_entry : RP_LogEntry_t :=
  {| e_data := replicate (Z.to_nat RP_LOG_ENTRY_MAX_SIZE) zero; e_length := 0 |}.

Definition zero_ring_buffer : RP_LogRingBuffer_t :=
  {| rb_entries := replicate (Z.to_nat RP_LOG_RING_BUFFER_CNT) zero_entry;
     rb_head := 0; rb_tail := 0; rb_count := 0 |}.

#[global] Instance RP_LogEntry_inhabited : Inhabited RP_LogEntry_t :=
  populate zero_entry.

(* ================================================================= *)
(** ** RP_Log.c: the ring buffer *)

Definition RB_GetNextIndex (index max : Z) : Z :=
  uint16 (Z.rem (index + 1) max).

Definition RB_IsFull (rb : RP_LogRingBuffer_t) : bool :=
  RP_LOG_RING_BUFFER_CNT <=? rb_count rb.

Definition RB_IsEmpty (rb : RP_LogRingBuffer_t) : bool :=
  rb_count rb =? 0.

(** [entries[i]]; an index outside the array is undefined in C and reads the
    zero slot here.  [rb_inv] below shows that no index leaves the array. *)
Definition entry_at (rb : RP_LogRingBuffer_t) (i : Z) : RP_LogEntry_t :=
  rb_entries rb !!! Z.to_nat i.

(** [RB_Push]: the return value and the ring buffer afterwards. *)
Definition RB_Push (rb : RP_LogRingBuffer_t) (data : list ascii) (length : Z)
  : Z * RP_LogRingBuffer_t :=
  if RB_IsFull rb then (-1, rb)
  else
    let length :=
      if RP_LOG_ENTRY_MAX_SIZE <? length then RP_LOG_ENTRY_MAX_SIZE else length in
    let slot :=
      {| e_data := memcpy (e_data (entry_at rb (rb_head rb))) data length;
         e_length := length |} in
    (0, {| rb_entries := <[Z.to_nat (rb_head rb) := slot]> (rb_entries rb);
           rb_head := RB_GetNextIndex (rb_head rb) RP_LOG_RING_BUFFER_CNT;
           rb_tail := rb_tail rb;
           rb_count := uint16 (rb_count rb + 1) |}).

(** What [RB_Pop] leaves: the return value, the ring buffer, and the
    caller's [data] array and [length] variable. *)
Record pop_result : Type := {
  pop_ret : Z;
  pop_rb : RP_LogRingBuffer_t;
  pop_data : list ascii;
  pop_length : Z
}.

Definition RB_Pop (rb : RP_LogRingBuffer_t) (data : list ascii) (length : Z)
  : pop_result :=
  if RB_IsEmpty rb then
    {| pop_ret := -1; pop_rb := rb; pop_data := data; pop_length := length |}
  else
    let length := e_length (entry_at rb (rb_tail rb)) in
    let data := memcpy data (e_data (entry_at rb (rb_tail rb))) length in
    {| pop_ret := 0;
       pop_rb := {| rb_entries := rb_entries rb;
                    rb_head := rb_head rb;
                    rb_tail := RB_GetNextIndex (rb_tail rb) RP_LOG_RING_BUFFER_CNT;
                    rb_count := uint16 (rb_count rb - 1) |};
       pop_data := data;
       pop_length := length |}.

(** A sequence of ring-buffer calls, for statements about every
    interleaving of pushes and pops. *)
Inductive rb_call : Type :=
| CallPush (data : list ascii) (length : Z)
| CallPop (data : list ascii) (length : Z).

Definition rb_step (rb : RP_LogRingBuffer_t) (c : rb_call) : RP_LogRingBuffer_t :=
  match c with
  | CallPush data length => snd (RB_Push rb data length)
  | CallPop data length => pop_rb (RB_Pop rb data length)
  end.

Definition rb_run (calls : list rb_call) (rb : RP_LogRingBuffer_t)
  : RP_LogRingBuffer_t :=
  fold_left rb_step calls rb.

(** The record a slot holds: the first [length] bytes of its [data]. *)
Definition record_of (e : RP_LogEntry_t) : list ascii :=
  take (Z.to_nat (e_length e)) (e_data e).

(** The queue a ring buffer represents: the records of the [count] slots
    from [tail] on, oldest first. *)
Definition rb_contents (rb : RP_LogRingBuffer_t) : list (list ascii) :=
  map (fun i : nat =>
         record_of (entry_at rb ((rb_tail rb + Z.of_nat i) mod RP_LOG_RING_BUFFER_CNT)))
      (seq 0 (Z.to_nat (rb_count rb))).

Definition entry_wf (e : RP_LogEntry_t) : Prop :=
  Z.of_nat (length (e_data e)) = RP_LOG_ENTRY_MAX_SIZE /\
  0 <= e_length e <= RP_LOG_ENTRY_MAX_SIZE.

(** The representation invariant of the indices. *)
Record rb_inv (rb : RP_LogRingBuffer_t) : Prop := {
  inv_count : 0 <= rb_count rb <= RP_LOG_RING_BUFFER_CNT;
  inv_tail : 0 <= rb_tail rb < RP_LOG_RING_BUFFER_CNT;
  inv_head : rb_head rb = (rb_tail rb + rb_count rb) mod RP_LOG_RING_BUFFER_CNT;
  inv_slots : Z.of_nat (length (rb_entries rb)) = RP_LOG_RING_BUFFER_CNT
}.

(** Every slot is a full [data] array with a [length] inside it. *)
Definition rb_slots_wf (rb : RP_LogRingBuffer_t) : Prop :=
  Forall entry_wf (rb_entries rb).

(** A record handed to [RB_Push]: [length] bytes that [data] really holds,
    within the capacity of a slot. *)
Definition record_wf (data : list ascii) (length : Z) : Prop :=
  0 <= length <= RP_LOG_ENTRY_MAX_SIZE /\ length <= Z.of_nat (List.length data).

(* ================================================================= *)
(** ** RP_Log.c: the formatter *)

Definition backslash : ascii := ascii_of_nat 92.
Definition CR : ascii := ascii_of_nat 13.
Definition LF : ascii := ascii_of_nat 10.

Definition g_level_names (level : RP_LogLevel_t) : string :=
  match level with
  | RP_LOG_LEVEL_FATAL => "FATAL"
  | RP_LOG_LEVEL_ERROR => "ERROR"
  | RP_LOG_LEVEL_WARN => "WARN "
  | RP_LOG_LEVEL_INFO => "INFO "
  | RP_LOG_LEVEL_DEBUG => "DEBUG"
  | RP_LOG_LEVEL_TRACE => "TRACE"
  end.

(** [strrchr(s, c)]: the suffix of [s] that starts at the last [c], or
    [None] for a null result. *)
Fixpoint strrchr (s : string) (c : ascii) : option string :=
  match s with
  | EmptyString => None
  | String a rest =>
      match strrchr rest c with
      | Some found => Some found
      | None => if Ascii.eqb a c then Some s else None
      end
  end.

(** [p + 1] on a pointer into a string. *)
Definition next_char (p : string) : string :=
  match p with
  | EmptyString => EmptyString
  | String _ rest => rest
  end.

(** The file-name extraction at the head of [RP_Log_Write]. *)
Definition extract_filename (file : string) : string :=
  match strrchr file backslash with
  | Some slash => next_char slash
  | None =>
      match strrchr file "/" with
      | Some slash => next_char slash
      | None => file
      end
  end.

(** The conversions [%lu] and [%d]. *)
Definition fmt_lu (n : N) : string := NilZero.string_of_uint (N.to_uint n).
Definition fmt_d (z : Z) : string := NilZero.string_of_int (Z.to_int z).

(** What ["[%lu] "] and ["[%s][%s:%d]: "] render to. *)
Definition fmt_timestamp (tick : N) : string :=
  "[" ++ fmt_lu tick ++ "] ".

Definition fmt_location (level : RP_LogLevel_t) (filename : string) (line : Z)
  : string :=
  "[" ++ g_level_names level ++ "][" ++ filename ++ ":" ++ fmt_d line ++ "]: ".

Definition strlen (s : string) : Z := Z.of_nat (String.length s).

(** [snprintf(buffer + at, size, ..)] where the conversions render to
    [text]: at most [size - 1] characters and a terminator are stored, and
    the length of [text] is returned.  The call sites pass
    [RP_LOG_ENTRY_MAX_SIZE - at] for [size]; when that is negative the
    conversion to [size_t] yields a huge bound and the store leaves the
    array, which is undefined: [None]. *)
Definition snprintf (buffer : list ascii) (at_ size : Z) (text : string)
  : option (list ascii * Z) :=
  if size <? 0 then None
  else if size =? 0 then Some (buffer, strlen text)
  else
    let n := Z.to_nat (Z.min (strlen text) (size - 1)) in
    let bytes := take n (list_ascii_of_string text) ++ [zero] in
    Some (take (Z.to_nat at_) buffer ++ bytes
            ++ drop (Z.to_nat at_ + length bytes) buffer,
          strlen text).

(** The switch on [output_range]: [true] where it returns -1. *)
Definition level_filtered (range : RP_LogOutputRange_t) (level : RP_LogLevel_t)
  : bool :=
  match range with
  | RP_LOG_OUTPUT_FATAL_ONLY =>
      negb (level_value level =? level_value RP_LOG_LEVEL_FATAL)
  | RP_LOG_OUTPUT_FATAL_TO_ERROR =>
      level_value RP_LOG_LEVEL_ERROR <? level_value level
  | RP_LOG_OUTPUT_FATAL_TO_WARN =>
      level_value RP_LOG_LEVEL_WARN <? level_value level
  | RP_LOG_OUTPUT_FATAL_TO_INFO =>
      level_value RP_LOG_LEVEL_INFO <? level_value level
  | RP_LOG_OUTPUT_FATAL_TO_DEBUG =>
      level_value RP_LOG_LEVEL_DEBUG <? level_value level
  | RP_LOG_OUTPUT_ALL => false
  end.

(* ================================================================= *)
(** ** RP_Log.c: the facility *)

(** What the source takes from its build and its host: whether the macro
    [USE_HAL_DRIVER] is defined (it comes from the HAL build, not from these
    files), and the transmit function, a weak symbol the user overrides.
    [Sink] is the state of the transport. *)
Class Host : Type := {
  USE_HAL_DRIVER : bool;
  Sink : Type;
  RP_Log_Transmit : list ascii -> Z -> Sink -> Z * Sink
}.

(** The state the operations act on: the global instance [g_rp_log] and the
    transport. *)
Record World `{Host} : Type := {
  g_rp_log : RP_Log_t;
  wire : Sink
}.

(** A [RP_Log_t *]: null, or the address of the instance. *)
Inductive RP_Log_ptr : Set :=
| NULL
| ADDR_g_rp_log.

Definition set_ring_buffer `{Host} (w : World) (rb : RP_LogRingBuffer_t) : World :=
  {| g_rp_log := {| config_param := config_param (g_rp_log w); ring_buffer := rb |};
     wire := wire w |}.

(** [RP_Log_Write].  [message] is what [vsnprintf] renders from [format] and
    the arguments (its return value is the length of that rendering),
    [tick] is what [HAL_GetTick()] returns, [buffer] is the uninitialised
    local array.  [RP_LOG_USE_RTT] is 0, so the RTT output is compiled out.
    The result is [None] where the C function is undefined. *)
Definition RP_Log_Write `{Host} (log : RP_Log_ptr) (level : RP_LogLevel_t)
    (file : string) (line : Z) (message : string) (tick : N)
    (buffer : list ascii) (w : World) : option (Z * World) :=
  match log with
  | NULL => Some (-1, w)
  | ADDR_g_rp_log =>
      let cfg := config_param (g_rp_log w) in
      if level_filtered (output_range cfg) level then Some (-1, w)
      else
        let filename := extract_filename file in
        let len := 0 in
        '(buffer, len) ←
          (if negb (use_timestamp cfg =? 0) && USE_HAL_DRIVER then
             '(buffer, n) ←
               snprintf buffer len (RP_LOG_ENTRY_MAX_SIZE - len) (fmt_timestamp tick);
             Some (buffer, len + n)
           else Some (buffer, len));
        '(buffer, n) ←
          snprintf buffer len (RP_LOG_ENTRY_MAX_SIZE - len)
                   (fmt_location level filename line);
        let len := len + n in
        '(buffer, n) ←
          snprintf buffer len (RP_LOG_ENTRY_MAX_SIZE - len) message;
        let len := len + n in
        let len :=
          if RP_LOG_ENTRY_MAX_SIZE - 2 <=? len then RP_LOG_ENTRY_MAX_SIZE - 3
          else len in
        let buffer := store buffer len CR in
        let len := len + 1 in
        let buffer := store buffer len LF in
        let len := len + 1 in
        let '(ret, rb) := RB_Push (ring_buffer (g_rp_log w)) buffer (uint16 len) in
        Some (if negb (ret =? 0) then -1 else 0, set_ring_buffer w rb)
  end.

(** [RP_Log_Work]; [buffer] and [length] are its uninitialised locals. *)
Definition RP_Log_Work `{Host} (log : RP_Log_ptr) (buffer : list ascii)
    (length : Z) (w : World) : World :=
  match log with
  | NULL => w
  | ADDR_g_rp_log =>
      let r := RB_Pop (ring_buffer (g_rp_log w)) buffer length in
      if pop_ret r =? 0 then
        let '(ret, wire') := RP_Log_Transmit (pop_data r) (pop_length r) (wire w) in
        let rb :=
          if negb (ret =? 0)
          then snd (RB_Push (pop_rb r) (pop_data r) (pop_length r))
          else pop_rb r in
        {| g_rp_log := {| config_param := config_param (g_rp_log w);
                          ring_buffer := rb |};
           wire := wire' |}
      else set_ring_buffer w (pop_rb r)
  end.

Definition RP_Log_GetCount `{Host} (log : RP_Log_ptr) (w : World) : Z :=
  match log with
  | NULL => 0
  | ADDR_g_rp_log => rb_count (ring_buffer (g_rp_log w))
  end.

Definition RP_Log_Flush `{Host} (log : RP_Log_ptr) (w : World) : World :=
  match log with
  | NULL => w
  | ADDR_g_rp_log => set_ring_buffer w zero_ring_buffer
  end.

(** The initialiser of [g_rp_log]. *)
Definition g_rp_log_init : RP_Log_t :=
  {| config_param := {| output_range := RP_LOG_OUTPUT_ALL;
                        use_timestamp := 1;
                        rtt_use_color := 1 |};
     ring_buffer := zero_ring_buffer |}.

(* ================================================================= *)
(** ** The queue, the rendered text and the states of a run *)

(** [n] successive [RB_Pop] calls on the same array and length variable:
    what each call returns (its return value and the record it read out,
    the first [*length] bytes of [data]) and the ring buffer left. *)
Fixpoint pop_many (n : nat) (rb : RP_LogRingBuffer_t) (data : list ascii)
    (length : Z) : list (Z * list ascii) * RP_LogRingBuffer_t :=
  match n with
  | O => ([], rb)
  | S n' =>
      let r := RB_Pop rb data length in
      let '(rest, rb') := pop_many n' (pop_rb r) (pop_data r) (pop_length r) in
      ((pop_ret r, take (Z.to_nat (pop_length r)) (pop_data r)) :: rest, rb')
  end.

Definition chars (s : string) : list ascii := list_ascii_of_string s.

(** The segments [RP_Log_Write] renders before the message. *)
Definition log_prefix `{Host} (cfg : RP_LogConfigParam_t) (level : RP_LogLevel_t)
    (file : string) (line : Z) (tick : N) : string :=
  String.append
    (if negb (use_timestamp cfg =? 0) && USE_HAL_DRIVER
     then fmt_timestamp tick else EmptyString)
    (fmt_location level (extract_filename file) line).

(** Prefix and message, before truncation and without the line ending. *)
Definition log_text `{Host} (cfg : RP_LogConfigParam_t) (level : RP_LogLevel_t)
    (file : string) (line : Z) (message : string) (tick : N) : list ascii :=
  chars (String.append (log_prefix cfg level file line tick) message).

(** The overflow guard of [RP_Log_Write]: the length kept of a rendered
    text of [n] bytes. *)
Definition kept_length (n : Z) : Z :=
  if RP_LOG_ENTRY_MAX_SIZE - 2 <=? n then RP_LOG_ENTRY_MAX_SIZE - 3 else n.

(** The bytes of [text] that are kept, followed by the line ending. *)
Definition terminated (text : list ascii) : list ascii :=
  take (Z.to_nat (kept_length (Z.of_nat (length text)))) text ++ [CR; LF].

(** The local array of [RP_Log_Write] once [text] has been rendered into
    it: the characters that fit before the last byte, a terminator, and what
    the array held before in the rest. *)
Definition written (buffer text : list ascii) : list ascii :=
  let k := Nat.min (length text) (Z.to_nat (RP_LOG_ENTRY_MAX_SIZE - 1)) in
  take k text ++ [zero] ++ drop (S k) buffer.

(** The state is one the ring-buffer functions can have left. *)
Definition world_inv `{Host} (w : World) : Prop :=
  rb_inv (ring_buffer (g_rp_log w)) /\ rb_slots_wf (ring_buffer (g_rp_log w)).

(** The states of a sequential run: from the initialiser, any number of
    calls of the operations, each running to its end before the next, with
    the configuration changed between calls at will. *)
Inductive reachable `{Host} : World -> Prop :=
| reach_init (s : Sink) :
    reachable {| g_rp_log := g_rp_log_init; wire := s |}
| reach_config (w : World) (cfg : RP_LogConfigParam_t) :
    reachable w ->
    reachable {| g_rp_log := {| config_param := cfg;
                                ring_buffer := ring_buffer (g_rp_log w) |};
                 wire := wire w |}
| reach_write (w w' : World) (log : RP_Log_ptr) (level : RP_LogLevel_t)
    (file : string) (line : Z) (message : string) (tick : N)
    (buffer : list ascii) (ret : Z) :
    reachable w ->
    Z.of_nat (length buffer) = RP_LOG_ENTRY_MAX_SIZE ->
    RP_Log_Write log level file line message tick buffer w = Some (ret, w') ->
    reachable w'
| reach_work (w : World) (log : RP_Log_ptr) (buffer : list ascii) (length : Z) :
    reachable w -> reachable (RP_Log_Work log buffer length w)
| reach_flush (w : World) (log : RP_Log_ptr) :
    reachable w -> reachable (RP_Log_Flush log w).

(* ================================================================= *)
(** ** Notions the statements are written with *)

(** The least severe level each range names ([RP_LOG_OUTPUT_FATAL_TO_WARN]
    admits FATAL to WARN, and so on). *)
Definition configured_maximum (range : RP_LogOutputRange_t) : RP_LogLevel_t :=
  match range with
  | RP_LOG_OUTPUT_FATAL_ONLY => RP_LOG_LEVEL_FATAL
  | RP_LOG_OUTPUT_FATAL_TO_ERROR => RP_LOG_LEVEL_ERROR
  | RP_LOG_OUTPUT_FATAL_TO_WARN => RP_LOG_LEVEL_WARN
  | RP_LOG_OUTPUT_FATAL_TO_INFO => RP_LOG_LEVEL_INFO
  | RP_LOG_OUTPUT_FATAL_TO_DEBUG => RP_LOG_LEVEL_DEBUG
  | RP_LOG_OUTPUT_ALL => RP_LOG_LEVEL_TRACE
  end.

Definition is_separator (c : ascii) : bool :=
  Ascii.eqb c "/" || Ascii.eqb c backslash.

Fixpoint has_separator (s : string) : bool :=
  match s with
  | EmptyString => false
  | String a rest => is_separator a || has_separator rest
  end.

Fixpoint occurs (c : ascii) (s : string) : bool :=
  match s with
  | EmptyString => false
  | String a rest => Ascii.eqb a c || occurs c rest
  end.

(** The last path component in the specification's words: everything up to
    and including the last ['/'] or ['\'] is stripped. *)
Fixpoint last_component (s : string) : string :=
  match s with
  | EmptyString => EmptyString
  | String a rest =>
      if is_separator a || has_separator rest then last_component rest else s
  end.

(** The layout C6 gives for a record with the tick segment. *)
Definition stamped_layout (tick : N) (level : RP_LogLevel_t) (file : string)
    (line : Z) (message : string) : string :=
  "[" ++ fmt_lu tick ++ "] [" ++ g_level_names level ++ "]["
      ++ extract_filename file ++ ":" ++ fmt_d line ++ "]: " ++ message.

(** The layout without the tick segment. *)
Definition plain_layout (level : RP_LogLevel_t) (file : string) (line : Z)
    (message : string) : string :=
  "[" ++ g_level_names level ++ "][" ++ extract_filename file ++ ":"
      ++ fmt_d line ++ "]: " ++ message.

(** The second half of C3 on a record: its last two bytes are the line
    ending. *)
Definition ends_with_crlf (record : list ascii) : Prop :=
  drop (length record - 2) record = [CR; LF].

(** C2 as stated: the three pops that follow the three pushes return A,
    then B, then C. *)
Definition fifo_as_stated (rb : RP_LogRingBuffer_t) (A B C : list ascii)
    (lenA lenB lenC : Z) (data : list ascii) (length : Z) : Prop :=
  let rb1 := snd (RB_Push rb A lenA) in
  let rb2 := snd (RB_Push rb1 B lenB) in
  let rb3 := snd (RB_Push rb2 C lenC) in
  fst (pop_many 3 rb3 data length) =
  [(0, take (Z.to_nat lenA) A); (0, take (Z.to_nat lenB) B);
   (0, take (Z.to_nat lenC) C)].

(* ================================================================= *)
(** ** Hosts for the examples *)

(** The source's own weak [RP_Log_Transmit]: its body is commented out and
    it returns -1. *)
Definition weak_transmit (data : list ascii) (length : Z) (s : unit) : Z * unit :=
  (-1, s).

(** A scripted transport: each call takes its return value from the script
    (and fails once the script is used up); a call that returns 0 puts the
    [length] bytes it was given on the wire. *)
Record uart : Type := {
  uart_script : list Z;
  uart_sent : list (list ascii)
}.

Definition scripted_transmit (data : list ascii) (length : Z) (u : uart)
  : Z * uart :=
  match uart_script u with
  | [] => (-1, u)
  | ret :: script =>
      (ret, {| uart_script := script;
               uart_sent := if ret =? 0
                            then uart_sent u ++ [take (Z.to_nat length) data]
                            else uart_sent u |})
  end.

Definition weak_host : Host :=
  {| USE_HAL_DRIVER := true; Sink := unit; RP_Log_Transmit := weak_transmit |}.

Definition uart_host : Host :=
  {| USE_HAL_DRIVER := true; Sink := uart; RP_Log_Transmit := scripted_transmit |}.

(** A build without [USE_HAL_DRIVER]. *)
Definition bare_host : Host :=
  {| USE_HAL_DRIVER := false; Sink := uart; RP_Log_Transmit := scripted_transmit |}.

(** An uninitialised local array, filled with a visible byte. *)
Definition stack_garbage : list ascii :=
  replicate (Z.to_nat RP_LOG_ENTRY_MAX_SIZE) "#"%char.

Definition boot `(H : Host) (s : Sink) : World :=
  {| g_rp_log := g_rp_log_init; wire := s |}.

Definition with_config `{Host} (w : World) (cfg : RP_LogConfigParam_t) : World :=
  {| g_rp_log := {| config_param := cfg; ring_buffer := ring_buffer (g_rp_log w) |};
     wire := wire w |}.

(* ================================================================= *)
(** ** Example inputs *)

Definition idle_uart : uart := {| uart_script := []; uart_sent := [] |}.

(** A message of 300 bytes. *)
Definition long_message : string :=
  string_of_list_ascii (replicate 300 "x"%char).

(** [RP_LOG_INFO(message)] at line 45 of [main.c], at tick 1234. *)
Definition logged `{Host} (message : string) (w : World) : World :=
  match RP_Log_Write ADDR_g_rp_log RP_LOG_LEVEL_INFO "main.c" 45 message 1234
                     stack_garbage w with
  | Some (_, w') => w'
  | None => w
  end.

Definition after_write `(H : Host) (s : Sink) (message : string) : World :=
  logged message (boot H s).

(** Two records buffered, and a transport that refuses the next call and
    takes the one after. *)
Definition two_buffered : @World uart_host :=
  logged (H := uart_host) "second"
    (logged (H := uart_host) "first"
       (boot uart_host {| uart_script := [-1; 0]; uart_sent := [] |})).

(** The last record of the queue. *)
Definition newest (rb : RP_LogRingBuffer_t) : list ascii :=
  List.last (rb_contents rb) [].

(** A path with a backslash followed, later, by a slash. *)
Definition mixed_path : string :=
  String.append "lib" (String backslash "src/main.c").

(** Sixteen pushes of a one-byte record. *)
Definition sixteen_pushes : list rb_call :=
  replicate 16 (CallPush (chars "r") 1).

(** A ring buffer that already holds one record. *)
Definition one_buffered : RP_LogRingBuffer_t :=
  snd (RB_Push zero_ring_buffer (chars "old") 3).

(* ================================================================= *)
(** ** Records as the facility emits them *)

(** A record that ends with the line ending and fits a slot with a byte to
    spare. *)
Definition record_ok (r : list ascii) : Prop :=
  ends_with_crlf r /\ 2 <= Z.of_nat (length r) <= RP_LOG_ENTRY_MAX_SIZE - 1.

(* ================================================================= *)
(** ** RP_Log.c: the RTT output (compiled when [RP_LOG_USE_RTT] is 1) *)

Definition ESC : ascii := ascii_of_nat 27.

Definition RP_LOG_COLOR_RESET : string := String ESC "[0m".

Definition g_level_colors (level : RP_LogLevel_t) : string :=
  match level with
  | RP_LOG_LEVEL_FATAL => String ESC "[1;35m"
  | RP_LOG_LEVEL_ERROR => String ESC "[1;31m"
  | RP_LOG_LEVEL_WARN => String ESC "[1;33m"
  | RP_LOG_LEVEL_INFO => String ESC "[1;32m"
  | RP_LOG_LEVEL_DEBUG => String ESC "[1;36m"
  | RP_LOG_LEVEL_TRACE => String ESC "[0;37m"
  end.

(** [RP_Log_RttOutput].  [rtt_buf] is its static array as the previous call
    left it, [tick] is what this call of [HAL_GetTick()] returns, and the
    configuration is read from [g_rp_log].  The result is the array
    afterwards and the length handed with it to [SEGGER_RTT_Write]; [None]
    where a [snprintf] call would store outside the array. *)
Definition RP_Log_RttOutput `{Host} (level : RP_LogLevel_t) (file : string)
    (line : Z) (message : string) (tick : N) (rtt_buf : list ascii)
    (w : World) : option (list ascii * Z) :=
  let cfg := config_param (g_rp_log w) in
  let rtt_len := 0 in
  let filename := extract_filename file in
  '(rtt_buf, rtt_len) ←
    (if negb (rtt_use_color cfg =? 0) then
       '(rtt_buf, n) ←
         snprintf rtt_buf 0 RP_LOG_ENTRY_MAX_SIZE (g_level_colors level);
       Some (rtt_buf, rtt_len + n)
     else Some (rtt_buf, rtt_len));
  '(rtt_buf, rtt_len) ←
    (if negb (use_timestamp cfg =? 0) && USE_HAL_DRIVER then
       '(rtt_buf, n) ←
         snprintf rtt_buf rtt_len (RP_LOG_ENTRY_MAX_SIZE - rtt_len)
                  (fmt_timestamp tick);
       Some (rtt_buf, rtt_len + n)
     else Some (rtt_buf, rtt_len));
  '(rtt_buf, n) ←
    snprintf rtt_buf rtt_len (RP_LOG_ENTRY_MAX_SIZE - rtt_len)
             (fmt_location level filename line);
  let rtt_len := rtt_len + n in
  '(rtt_buf, rtt_len) ←
    (if negb (rtt_use_color cfg =? 0) then
       '(rtt_buf, n) ←
         snprintf rtt_buf rtt_len (RP_LOG_ENTRY_MAX_SIZE - rtt_len)
                  RP_LOG_COLOR_RESET;
       Some (rtt_buf, rtt_len + n)
     else Some (rtt_buf, rtt_len));
  '(rtt_buf, n) ←
    snprintf rtt_buf rtt_len (RP_LOG_ENTRY_MAX_SIZE - rtt_len) message;
  let rtt_len := rtt_len + n in
  let rtt_len :=
    if RP_LOG_ENTRY_MAX_SIZE - 2 <=? rtt_len then RP_LOG_ENTRY_MAX_SIZE - 3
    else rtt_len in
  let rtt_buf := store rtt_buf rtt_len CR in
  let rtt_len := rtt_len + 1 in
  let rtt_buf := store rtt_buf rtt_len LF in
  let rtt_len := rtt_len + 1 in
  Some (rtt_buf, rtt_len).

(** The RTT side of the state: the static array of [RP_Log_RttOutput] and
    what [SEGGER_RTT_Write(0, ..)] has been handed, oldest first. *)
Record rtt_state : Type := {
  rtt_static : list ascii;
  rtt_channel : list (list ascii)
}.

(** [RP_Log_Write] as compiled with [RP_LOG_USE_RTT] set to 1: the RTT
    output follows the push, so every return before it (null pointer,
    filtered level, full buffer) skips it.  [tick_rtt] is what the second
    call of [HAL_GetTick()], the one in [RP_Log_RttOutput], returns. *)
Definition RP_Log_Write_rtt `{Host} (log : RP_Log_ptr) (level : RP_LogLevel_t)
    (file : string) (line : Z) (message : string) (tick tick_rtt : N)
    (buffer : list ascii) (w : World) (r : rtt_state)
  : option (Z * World * rtt_state) :=
  '(ret, w') ← RP_Log_Write log level file line message tick buffer w;
  if ret =? 0 then
    '(rtt_buf, rtt_len) ←
      RP_Log_RttOutput level file line message tick_rtt (rtt_static r) w';
    Some (0, w', {| rtt_static := rtt_buf;
                    rtt_channel := rtt_channel r ++ [take (Z.to_nat rtt_len) rtt_buf] |})
  else Some (ret, w', r).

(** The segments [RP_Log_RttOutput] renders before the message. *)
Definition rtt_prefix `{Host} (cfg : RP_LogConfigParam_t) (level : RP_LogLevel_t)
    (file : string) (line : Z) (tick : N) : string :=
  String.append
    (if negb (rtt_use_color cfg =? 0) then g_level_colors level else EmptyString)
    (String.append
       (log_prefix cfg level file line tick)
       (if negb (rtt_use_color cfg =? 0) then RP_LOG_COLOR_RESET else EmptyString)).

(* ================================================================= *)
(** * Properties of the ring buffer *)

#[local] Ltac consts :=
  unfold RP_LOG_RING_BUFFER_CNT, RP_LOG_ENTRY_MAX_SIZE in *.

Lemma uint16_small (z : Z) : 0 <= z < 65536 -> uint16 z = z.
Proof. intros Hz. unfold uint16. apply Z.mod_small. exact Hz. Qed.

Lemma RB_GetNextIndex_wraps (i : Z) :
  0 <= i < RP_LOG_RING_BUFFER_CNT ->
  RB_GetNextIndex i RP_LOG_RING_BUFFER_CNT = (i + 1) mod RP_LOG_RING_BUFFER_CNT.
Proof.
  intros Hi. unfold RB_GetNextIndex. consts.
  rewrite Z.rem_mod_nonneg by lia.
  apply uint16_small.
  pose proof (Z.mod_pos_bound (i + 1) 16). lia.
Qed.

Lemma rb_inv_head_bound (rb : RP_LogRingBuffer_t) :
  rb_inv rb -> 0 <= rb_head rb < RP_LOG_RING_BUFFER_CNT.
Proof.
  intros [_ _ Hh _]. rewrite Hh. consts. apply Z.mod_pos_bound. lia.
Qed.

Lemma rb_inv_zero : rb_inv zero_ring_buffer.
Proof. split; cbn; consts; try lia; reflexivity. Qed.

Lemma RB_Push_full (rb : RP_LogRingBuffer_t) (data : list ascii) (length : Z) :
  RP_LOG_RING_BUFFER_CNT <= rb_count rb -> RB_Push rb data length = (-1, rb).
Proof.
  intros Hfull. unfold RB_Push, RB_IsFull.
  destruct (Z.leb_spec RP_LOG_RING_BUFFER_CNT (rb_count rb)); [reflexivity | lia].
Qed.

Lemma RB_Pop_empty (rb : RP_LogRingBuffer_t) (data : list ascii) (length : Z) :
  rb_count rb = 0 ->
  RB_Pop rb data length =
  {| pop_ret := -1; pop_rb := rb; pop_data := data; pop_length := length |}.
Proof. intros Hempty. unfold RB_Pop, RB_IsEmpty. rewrite Hempty. reflexivity. Qed.

Lemma RB_Push_inv (rb : RP_LogRingBuffer_t) (data : list ascii) (length : Z) :
  rb_inv rb -> rb_inv (snd (RB_Push rb data length)).
Proof.
  intros Hinv. pose proof (rb_inv_head_bound rb Hinv) as Hhead.
  destruct Hinv as [Hc Ht Hh Hs].
  unfold RB_Push, RB_IsFull.
  destruct (Z.leb_spec RP_LOG_RING_BUFFER_CNT (rb_count rb)) as [Hfull | Hroom].
  - split; assumption.
  - cbn [snd]. split; cbn.
    + rewrite uint16_small by (consts; lia). lia.
    + exact Ht.
    + rewrite RB_GetNextIndex_wraps by exact Hhead.
      rewrite uint16_small by (consts; lia).
      rewrite Hh, Zplus_mod_idemp_l. f_equal. lia.
    + rewrite length_insert. exact Hs.
Qed.

Lemma RB_Pop_inv (rb : RP_LogRingBuffer_t) (data : list ascii) (length : Z) :
  rb_inv rb -> rb_inv (pop_rb (RB_Pop rb data length)).
Proof.
  intros [Hc Ht Hh Hs].
  unfold RB_Pop, RB_IsEmpty.
  destruct (Z.eqb_spec (rb_count rb) 0) as [Hempty | Hsome].
  - split; assumption.
  - split; cbn.
    + rewrite uint16_small by (consts; lia). lia.
    + rewrite RB_GetNextIndex_wraps by exact Ht.
      consts. apply Z.mod_pos_bound. lia.
    + rewrite RB_GetNextIndex_wraps by exact Ht.
      rewrite uint16_small by (consts; lia).
      rewrite Hh, Zplus_mod_idemp_l. f_equal. lia.
    + exact Hs.
Qed.

Lemma rb_run_inv (calls : list rb_call) (rb : RP_LogRingBuffer_t) :
  rb_inv rb -> rb_inv (rb_run calls rb).
Proof.
  revert rb. induction calls as [| c calls IH]; intros rb Hinv.
  - exact Hinv.
  - cbn. apply IH. destruct c; cbn.
    + apply RB_Push_inv, Hinv.
    + apply RB_Pop_inv, Hinv.
Qed.

(** C1. After any sequence of [RB_Push] and [RB_Pop] calls on the zeroed
    ring buffer, [count] lies between 0 and [RP_LOG_RING_BUFFER_CNT], [head]
    and [tail] are indices below [RP_LOG_RING_BUFFER_CNT], a push at
    [count == RP_LOG_RING_BUFFER_CNT] returns -1 and changes nothing, and a
    pop at [count == 0] returns -1 and changes nothing (neither the ring
    buffer nor the caller's array and length). *)
Theorem C1_ring_buffer_invariant (calls : list rb_call) :
  let rb := rb_run calls zero_ring_buffer in
  0 <= rb_count rb <= RP_LOG_RING_BUFFER_CNT /\
  0 <= rb_head rb < RP_LOG_RING_BUFFER_CNT /\
  0 <= rb_tail rb < RP_LOG_RING_BUFFER_CNT /\
  (rb_count rb = RP_LOG_RING_BUFFER_CNT ->
   forall data length, RB_Push rb data length = (-1, rb)) /\
  (rb_count rb = 0 ->
   forall data length,
     RB_Pop rb data length =
     {| pop_ret := -1; pop_rb := rb; pop_data := data; pop_length := length |}).
Proof.
  intros rb.
  assert (Hinv : rb_inv rb) by apply rb_run_inv, rb_inv_zero.
  repeat split.
  - apply (inv_count rb Hinv).
  - apply (inv_count rb Hinv).
  - apply (rb_inv_head_bound rb Hinv).
  - apply (rb_inv_head_bound rb Hinv).
  - apply (inv_tail rb Hinv).
  - apply (inv_tail rb Hinv).
  - intros Hfull data length. apply RB_Push_full. lia.
  - intros Hempty data length. apply RB_Pop_empty, Hempty.
Qed.

(** *** The queue a ring buffer represents *)

Lemma memcpy_prefix (dst src : list ascii) (n : Z) :
  n <= Z.of_nat (length src) ->
  take (Z.to_nat n) (memcpy dst src n) = take (Z.to_nat n) src.
Proof.
  intros Hn. unfold memcpy.
  rewrite take_app_le by (rewrite length_take; lia).
  apply take_idemp.
Qed.

Lemma memcpy_length (dst src : list ascii) (n : Z) :
  n <= Z.of_nat (length src) -> n <= Z.of_nat (length dst) ->
  length (memcpy dst src n) = length dst.
Proof.
  intros Hs Hd. unfold memcpy.
  rewrite length_app, length_take, length_drop. lia.
Qed.

Lemma memcpy_holds (dst src : list ascii) (n : Z) :
  n <= Z.of_nat (length src) -> n <= Z.of_nat (length (memcpy dst src n)).
Proof.
  intros Hs. unfold memcpy. rewrite length_app, length_take. lia.
Qed.

Lemma entry_at_wf (rb : RP_LogRingBuffer_t) (i : Z) :
  rb_inv rb -> rb_slots_wf rb -> 0 <= i < RP_LOG_RING_BUFFER_CNT ->
  entry_wf (entry_at rb i).
Proof.
  intros Hinv Hwf Hi. unfold entry_at.
  apply Forall_lookup_total_1; [exact Hwf |].
  pose proof (inv_slots rb Hinv). lia.
Qed.

(** Distinct offsets below the capacity name distinct slots. *)
Lemma slot_index_inj (t i j : Z) :
  0 <= i < RP_LOG_RING_BUFFER_CNT -> 0 <= j < RP_LOG_RING_BUFFER_CNT ->
  (t + i) mod RP_LOG_RING_BUFFER_CNT = (t + j) mod RP_LOG_RING_BUFFER_CNT ->
  i = j.
Proof.
  consts. intros Hi Hj Heq.
  assert (Hd : (i - j) mod 16 = 0).
  { replace (i - j) with ((t + i) - (t + j)) by lia.
    rewrite Zminus_mod, Heq, Z.sub_diag. reflexivity. }
  apply Z.mod_divide in Hd; [| lia].
  destruct Hd as [k Hk]. lia.
Qed.

Lemma RB_Push_room (rb : RP_LogRingBuffer_t) (data : list ascii) (length : Z) :
  rb_inv rb -> rb_count rb < RP_LOG_RING_BUFFER_CNT -> record_wf data length ->
  fst (RB_Push rb data length) = 0 /\
  rb_count (snd (RB_Push rb data length)) = rb_count rb + 1 /\
  rb_contents (snd (RB_Push rb data length)) =
  rb_contents rb ++ [take (Z.to_nat length) data].
Proof.
  intros Hinv Hroom [Hlen Hdata].
  pose proof (rb_inv_head_bound rb Hinv) as Hhead.
  destruct Hinv as [Hc Ht Hh Hs].
  unfold RB_Push, RB_IsFull.
  destruct (Z.leb_spec RP_LOG_RING_BUFFER_CNT (rb_count rb)) as [Hfull | _]; [lia |].
  destruct (Z.ltb_spec RP_LOG_ENTRY_MAX_SIZE length) as [Hbig | _]; [lia |].
  cbn [fst snd rb_count]. rewrite uint16_small by (consts; lia).
  split; [reflexivity |]. split; [reflexivity |].
  unfold rb_contents at 1. cbn [rb_count rb_tail rb_entries].
  replace (Z.to_nat (rb_count rb + 1)) with (S (Z.to_nat (rb_count rb))) by lia.
  rewrite seq_S, map_app. cbn [map]. f_equal.
  - apply map_ext_in. intros i Hin. apply in_seq in Hin.
    unfold entry_at; cbn [rb_entries]. f_equal.
    apply list_lookup_total_insert_ne. intros Heq.
    apply Z2Nat.inj in Heq;
      [| lia | consts; apply Z.mod_pos_bound; lia].
    rewrite Hh in Heq. apply slot_index_inj in Heq; lia.
  - f_equal. unfold entry_at; cbn [rb_entries].
    rewrite Nat.add_0_l, Z2Nat.id by lia. rewrite <- Hh.
    rewrite list_lookup_total_insert_eq by lia.
    unfold record_of; cbn. apply memcpy_prefix. lia.
Qed.

Lemma RB_Push_slots_wf (rb : RP_LogRingBuffer_t) (data : list ascii) (length : Z) :
  rb_inv rb -> rb_slots_wf rb -> record_wf data length ->
  rb_slots_wf (snd (RB_Push rb data length)).
Proof.
  intros Hinv Hwf [Hlen Hdata].
  pose proof (entry_at_wf rb (rb_head rb) Hinv Hwf (rb_inv_head_bound rb Hinv))
    as [Hold _].
  unfold RB_Push. destruct (RB_IsFull rb); [exact Hwf |].
  destruct (Z.ltb_spec RP_LOG_ENTRY_MAX_SIZE length) as [Hbig | _]; [lia |].
  unfold rb_slots_wf; cbn. apply Forall_insert; [exact Hwf |].
  split; cbn; [| exact Hlen].
  rewrite memcpy_length by lia. exact Hold.
Qed.

Lemma RB_Pop_some (rb : RP_LogRingBuffer_t) (data : list ascii) (length : Z) :
  rb_inv rb -> rb_slots_wf rb -> rb_count rb <> 0 ->
  let r := RB_Pop rb data length in
  pop_ret r = 0 /\
  rb_count (pop_rb r) = rb_count rb - 1 /\
  rb_contents rb = take (Z.to_nat (pop_length r)) (pop_data r) :: rb_contents (pop_rb r) /\
  record_wf (pop_data r) (pop_length r).
Proof.
  intros Hinv Hwf Hsome.
  pose proof (entry_at_wf rb (rb_tail rb) Hinv Hwf (inv_tail rb Hinv))
    as [Hdata Hlen].
  destruct Hinv as [Hc Ht Hh Hs].
  unfold RB_Pop, RB_IsEmpty.
  destruct (Z.eqb_spec (rb_count rb) 0) as [Hempty | _]; [contradiction |].
  cbn zeta. cbn [pop_ret pop_rb pop_data pop_length rb_count].
  rewrite uint16_small by (consts; lia).
  split; [reflexivity |]. split; [reflexivity |]. split.
  - unfold rb_contents. cbn [rb_count rb_tail rb_entries].
    replace (Z.to_nat (rb_count rb)) with (S (Z.to_nat (rb_count rb - 1))) by lia.
    rewrite <- cons_seq, <- seq_shift, map_cons, map_map. f_equal.
    + rewrite memcpy_prefix by lia. unfold record_of.
      change (Z.of_nat 0) with 0.
      rewrite Z.add_0_r, Z.mod_small by exact Ht. reflexivity.
    + apply map_ext. intros i. unfold entry_at; cbn [rb_entries].
      rewrite RB_GetNextIndex_wraps by exact Ht.
      rewrite Zplus_mod_idemp_l.
      replace (rb_tail rb + Z.of_nat (S i)) with (rb_tail rb + 1 + Z.of_nat i) by lia.
      reflexivity.
  - split; [exact Hlen |]. apply memcpy_holds. lia.
Qed.

Lemma rb_contents_length (rb : RP_LogRingBuffer_t) :
  0 <= rb_count rb -> Z.of_nat (length (rb_contents rb)) = rb_count rb.
Proof.
  intros Hc. unfold rb_contents. rewrite length_map, length_seq. lia.
Qed.

Lemma rb_slots_wf_zero : rb_slots_wf zero_ring_buffer.
Proof.
  unfold rb_slots_wf, zero_ring_buffer; cbn [rb_entries].
  apply Forall_replicate. split; cbn [zero_entry e_data e_length].
  - rewrite length_replicate. consts. lia.
  - consts. lia.
Qed.

Lemma RB_Pop_slots_wf (rb : RP_LogRingBuffer_t) (data : list ascii) (length : Z) :
  rb_slots_wf rb -> rb_slots_wf (pop_rb (RB_Pop rb data length)).
Proof.
  intros Hwf. unfold RB_Pop. destruct (RB_IsEmpty rb); exact Hwf.
Qed.

(** [n] pops on a buffer that holds at least [n] records return them oldest
    first, each with return value 0. *)
Lemma pop_many_prefix (n : nat) (rb : RP_LogRingBuffer_t) (data : list ascii)
    (length : Z) :
  rb_inv rb -> rb_slots_wf rb -> Z.of_nat n <= rb_count rb ->
  fst (pop_many n rb data length) = map (pair 0) (take n (rb_contents rb)) /\
  rb_contents (snd (pop_many n rb data length)) = drop n (rb_contents rb).
Proof.
  revert rb data length.
  induction n as [| n IH]; intros rb data length Hinv Hwf Hn.
  - split; reflexivity.
  - destruct (RB_Pop_some rb data length Hinv Hwf ltac:(lia))
      as (Hret & Hcount & Hcontents & _).
    specialize (IH (pop_rb (RB_Pop rb data length))
                   (pop_data (RB_Pop rb data length))
                   (pop_length (RB_Pop rb data length))
                   (RB_Pop_inv rb data length Hinv)
                   (RB_Pop_slots_wf rb data length Hwf)
                   ltac:(lia)).
    destruct IH as [IHobs IHrest].
    cbn [pop_many].
    destruct (pop_many n _ _ _) as [rest rb'] eqn:Hmany.
    cbn [fst snd] in *. rewrite Hcontents. cbn [take drop map].
    rewrite Hret, IHobs. split; [reflexivity | exact IHrest].
Qed.

(** C2 (amended). Records A, B, C pushed in that order into a ring buffer
    with at least three free slots are all accepted, and the pops that
    follow return, oldest first, the records that were already buffered and
    then A, B, C: on an empty buffer the three pops right after the pushes
    return A, then B, then C. *)
Theorem C2_fifo_order (rb : RP_LogRingBuffer_t)
    (A B C : list ascii) (lenA lenB lenC : Z) (data : list ascii) (length : Z) :
  rb_inv rb -> rb_slots_wf rb ->
  rb_count rb + 3 <= RP_LOG_RING_BUFFER_CNT ->
  record_wf A lenA -> record_wf B lenB -> record_wf C lenC ->
  let rb1 := snd (RB_Push rb A lenA) in
  let rb2 := snd (RB_Push rb1 B lenB) in
  let rb3 := snd (RB_Push rb2 C lenC) in
  fst (RB_Push rb A lenA) = 0 /\
  fst (RB_Push rb1 B lenB) = 0 /\
  fst (RB_Push rb2 C lenC) = 0 /\
  fst (pop_many (Z.to_nat (rb_count rb) + 3) rb3 data length) =
  map (pair 0)
      (rb_contents rb
         ++ [take (Z.to_nat lenA) A; take (Z.to_nat lenB) B; take (Z.to_nat lenC) C]) /\
  (rb_count rb = 0 ->
   fst (pop_many 3 rb3 data length) =
   [(0, take (Z.to_nat lenA) A); (0, take (Z.to_nat lenB) B);
    (0, take (Z.to_nat lenC) C)]).
Proof.
  intros Hinv Hwf Hroom HA HB HC rb1 rb2 rb3.
  pose proof (inv_count rb Hinv) as Hc.
  destruct (RB_Push_room rb A lenA Hinv ltac:(lia) HA) as (HrA & HcA & HqA).
  pose proof (RB_Push_inv rb A lenA Hinv) as Hinv1.
  pose proof (RB_Push_slots_wf rb A lenA Hinv Hwf HA) as Hwf1.
  fold rb1 in HcA, HqA, Hinv1, Hwf1.
  destruct (RB_Push_room rb1 B lenB Hinv1 ltac:(lia) HB) as (HrB & HcB & HqB).
  pose proof (RB_Push_inv rb1 B lenB Hinv1) as Hinv2.
  pose proof (RB_Push_slots_wf rb1 B lenB Hinv1 Hwf1 HB) as Hwf2.
  fold rb2 in HcB, HqB, Hinv2, Hwf2.
  destruct (RB_Push_room rb2 C lenC Hinv2 ltac:(lia) HC) as (HrC & HcC & HqC).
  pose proof (RB_Push_inv rb2 C lenC Hinv2) as Hinv3.
  pose proof (RB_Push_slots_wf rb2 C lenC Hinv2 Hwf2 HC) as Hwf3.
  fold rb3 in HcC, HqC, Hinv3, Hwf3.
  repeat (split; [assumption |]).
  destruct (pop_many_prefix (Z.to_nat (rb_count rb) + 3) rb3 data length
              Hinv3 Hwf3 ltac:(lia)) as [Hobs _].
  assert (Hall : fst (pop_many (Z.to_nat (rb_count rb) + 3) rb3 data length) =
                 map (pair 0)
                     (rb_contents rb
                        ++ [take (Z.to_nat lenA) A; take (Z.to_nat lenB) B;
                            take (Z.to_nat lenC) C])).
  { rewrite Hobs, HqC, HqB, HqA. f_equal.
    rewrite <- !app_assoc. cbn [app].
    apply take_ge. rewrite length_app.
    pose proof (rb_contents_length rb ltac:(lia)). cbn [Datatypes.length]. lia. }
  split; [exact Hall |].
  intros Hempty.
  assert (Hnone : rb_contents rb = [])
    by (unfold rb_contents; rewrite Hempty; reflexivity).
  rewrite Hempty, Hnone in Hall. exact Hall.
Qed.

(** *** The invariant and the order on examples *)

(** C1 on examples: after sixteen pushes the buffer is full and a further
    push is refused; on the zeroed buffer a pop is refused. *)
Lemma C1_ring_buffer_invariant_witness :
  let full := rb_run sixteen_pushes zero_ring_buffer in
  rb_count full = RP_LOG_RING_BUFFER_CNT /\
  RB_Push full (chars "r") 1 = (-1, full) /\
  RB_Pop zero_ring_buffer stack_garbage 0 =
  {| pop_ret := -1; pop_rb := zero_ring_buffer;
     pop_data := stack_garbage; pop_length := 0 |}.
Proof.
  cbv zeta.
  destruct (C1_ring_buffer_invariant sixteen_pushes) as (_ & _ & _ & Hfull & _).
  destruct (C1_ring_buffer_invariant []) as (_ & _ & _ & _ & Hempty).
  split; [reflexivity |]. split.
  - apply Hfull. reflexivity.
  - apply Hempty. reflexivity.
Defined.

Lemma one_buffered_wf : rb_inv one_buffered /\ rb_slots_wf one_buffered.
Proof.
  assert (Hrec : record_wf (chars "old") 3) by (split; cbn; consts; lia).
  split.
  - apply RB_Push_inv, rb_inv_zero.
  - apply RB_Push_slots_wf; [apply rb_inv_zero | apply rb_slots_wf_zero | exact Hrec].
Qed.

(** C2 as stated fails when the buffer is not empty: with one record
    buffered (and fifteen free slots), the three pops after pushing A, B, C
    return the old record, then A, then B. *)
Lemma C2_counterexample :
  rb_inv one_buffered /\ rb_slots_wf one_buffered /\
  rb_count one_buffered + 3 <= RP_LOG_RING_BUFFER_CNT /\
  record_wf (chars "A") 1 /\ record_wf (chars "B") 1 /\ record_wf (chars "C") 1 /\
  ~ fifo_as_stated one_buffered (chars "A") (chars "B") (chars "C") 1 1 1
      stack_garbage 0.
Proof.
  split; [apply one_buffered_wf |]. split; [apply one_buffered_wf |].
  split; [vm_compute; discriminate |].
  repeat (split; [split; cbn; consts; lia |]).
  unfold fifo_as_stated. vm_compute. discriminate.
Qed.

(** C2 (amended) on the buffer of the counterexample: four pops return the
    old record, then A, B, C. *)
Lemma C2_fifo_order_witness :
  let rb1 := snd (RB_Push one_buffered (chars "A") 1) in
  let rb2 := snd (RB_Push rb1 (chars "B") 1) in
  let rb3 := snd (RB_Push rb2 (chars "C") 1) in
  fst (pop_many 4 rb3 stack_garbage 0) =
  [(0, chars "old"); (0, chars "A"); (0, chars "B"); (0, chars "C")].
Proof.
  cbv zeta.
  destruct (C2_fifo_order one_buffered (chars "A") (chars "B") (chars "C") 1 1 1
              stack_garbage 0)
    as (_ & _ & _ & Hpops & _).
  - apply one_buffered_wf.
  - apply one_buffered_wf.
  - vm_compute. discriminate.
  - split; cbn; consts; lia.
  - split; cbn; consts; lia.
  - split; cbn; consts; lia.
  - exact Hpops.
Defined.

(* ================================================================= *)
(** * Properties of the formatter *)

Lemma chars_app (s t : string) : chars (s ++ t) = chars s ++ chars t.
Proof.
  unfold chars. induction s as [| a s IH]; [reflexivity |].
  cbn. rewrite IH. reflexivity.
Qed.

Lemma chars_length (s : string) : Z.of_nat (length (chars s)) = strlen s.
Proof.
  unfold chars, strlen. f_equal.
  induction s as [| a s IH]; [reflexivity |]. cbn. rewrite IH. reflexivity.
Qed.

Lemma snprintf_first (buffer : list ascii) (text : string) :
  snprintf buffer 0 (RP_LOG_ENTRY_MAX_SIZE - 0) text =
  Some (written buffer (chars text), strlen text).
Proof.
  unfold snprintf, written. consts.
  change (256 - 0) with 256. change (256 <? 0) with false.
  change (256 =? 0) with false. cbv iota.
  rewrite <- chars_length. fold (chars text).
  replace (Z.to_nat (Z.min (Z.of_nat (length (chars text))) (256 - 1)))
    with (Nat.min (length (chars text)) (Z.to_nat (256 - 1))) by lia.
  set (k := Nat.min _ _).
  change (Z.to_nat 0) with 0%nat. rewrite take_0, app_nil_l, <- app_assoc.
  do 4 f_equal.
  rewrite length_app, length_take. cbn [length]. f_equal. lia.
Qed.

Lemma snprintf_append (buffer done_ : list ascii) (text : string) :
  Z.of_nat (length done_) <= RP_LOG_ENTRY_MAX_SIZE ->
  snprintf (written buffer done_) (Z.of_nat (length done_))
           (RP_LOG_ENTRY_MAX_SIZE - Z.of_nat (length done_)) text =
  Some (written buffer (done_ ++ chars text), strlen text).
Proof.
  intros Hfit. unfold snprintf. consts.
  destruct (Z.ltb_spec (256 - Z.of_nat (length done_)) 0) as [Hneg | _]; [lia |].
  destruct (Z.eqb_spec (256 - Z.of_nat (length done_)) 0) as [Hfull | Hroom].
  - do 2 f_equal. unfold written. consts.
    replace (Nat.min (length (done_ ++ chars text)) (Z.to_nat (256 - 1)))
      with 255%nat by (rewrite length_app; lia).
    replace (Nat.min (length done_) (Z.to_nat (256 - 1))) with 255%nat by lia.
    rewrite take_app_le by lia. reflexivity.
  - rewrite <- chars_length. fold (chars text).
    set (n := Z.to_nat (Z.min _ _)).
    assert (Hn : (n <= length (chars text))%nat) by lia.
    f_equal. f_equal. unfold written. consts.
    replace (Nat.min (length (done_ ++ chars text)) (Z.to_nat (256 - 1)))
      with (length done_ + n)%nat by (rewrite length_app; lia).
    replace (Nat.min (length done_) (Z.to_nat (256 - 1))) with (length done_) by lia.
    rewrite Nat2Z.id, firstn_all, take_app_length.
    rewrite take_app_add, <- !app_assoc. do 3 f_equal.
    rewrite length_app, length_take_le by lia. cbn [length app].
    replace (length done_ + (n + 1))%nat with (length done_ + S n)%nat by lia.
    rewrite drop_app_add. cbn [drop]. rewrite drop_drop. reflexivity.
Qed.

Lemma snprintf_some (buffer buffer' : list ascii) (at_ size n : Z) (text : string) :
  snprintf buffer at_ size text = Some (buffer', n) ->
  0 <= size /\ n = strlen text.
Proof.
  unfold snprintf. intros Hs.
  destruct (Z.ltb_spec size 0) as [Hneg | Hpos]; [discriminate |].
  split; [exact Hpos |].
  destruct (size =? 0); inversion Hs; reflexivity.
Qed.

Lemma written_length (buffer text : list ascii) :
  Z.of_nat (length buffer) = RP_LOG_ENTRY_MAX_SIZE ->
  length (written buffer text) = length buffer.
Proof.
  unfold written. consts. intros Hb.
  rewrite !length_app, length_take, length_drop. cbn [length]. lia.
Qed.

Lemma written_prefix (buffer text : list ascii) (n : nat) :
  (n <= length text)%nat -> (n <= Z.to_nat (RP_LOG_ENTRY_MAX_SIZE - 1))%nat ->
  take n (written buffer text) = take n text.
Proof.
  unfold written. intros Ht Hn.
  rewrite take_app_le by (rewrite length_take; lia).
  rewrite take_take. f_equal. lia.
Qed.

Lemma store_line_ending (a : list ascii) (n : nat) (c d : ascii) :
  (n + 2 <= length a)%nat ->
  take (n + 2) (<[S n := d]> (<[n := c]> a)) = take n a ++ [c; d].
Proof.
  revert a. induction n as [| n IH]; intros a Hlen.
  - destruct a as [| x [| y a]]; cbn in Hlen; try lia. reflexivity.
  - destruct a as [| x a]; cbn in Hlen; [lia |].
    cbn. f_equal. apply IH. lia.
Qed.

Lemma terminated_in_buffer (buffer text : list ascii) :
  Z.of_nat (length buffer) = RP_LOG_ENTRY_MAX_SIZE ->
  let len := kept_length (Z.of_nat (length text)) in
  let final := store (store (written buffer text) len CR) (len + 1) LF in
  take (Z.to_nat (len + 1 + 1)) final = terminated text /\
  record_wf final (len + 1 + 1).
Proof.
  intros Hb len final.
  pose proof (written_length buffer text Hb) as Hw.
  assert (Hlen : 0 <= len <= RP_LOG_ENTRY_MAX_SIZE - 3 /\ len <= Z.of_nat (length text)).
  { unfold len, kept_length. consts.
    destruct (Z.leb_spec (256 - 2) (Z.of_nat (length text))); lia. }
  consts. split.
  - unfold final, store.
    replace (Z.to_nat (len + 1 + 1)) with (Z.to_nat len + 2)%nat by lia.
    replace (Z.to_nat (len + 1)) with (S (Z.to_nat len)) by lia.
    rewrite store_line_ending by lia.
    rewrite written_prefix by (consts; lia).
    reflexivity.
  - unfold record_wf. consts. split; [lia |].
    unfold final, store. rewrite !length_insert. lia.
Qed.

Lemma terminated_length (text : list ascii) :
  Z.of_nat (length (terminated text)) = kept_length (Z.of_nat (length text)) + 2.
Proof.
  unfold terminated.
  rewrite length_app, length_take. cbn [length].
  unfold kept_length. consts.
  destruct (Z.leb_spec (256 - 2) (Z.of_nat (length text))); lia.
Qed.

Lemma snprintf_next (buffer done_ : list ascii) (at_ : Z) (text : string) :
  at_ = Z.of_nat (length done_) -> at_ <= RP_LOG_ENTRY_MAX_SIZE ->
  snprintf (written buffer done_) at_ (RP_LOG_ENTRY_MAX_SIZE - at_) text =
  Some (written buffer (done_ ++ chars text), strlen text).
Proof. intros -> Hfit. apply snprintf_append, Hfit. Qed.

(** [RP_Log_Write] on a message that passes the filter and whose prefix
    fits the local array: the array ends up holding the terminated text,
    and that is what is pushed. *)
Lemma RP_Log_Write_renders `{Host} (w : World) (level : RP_LogLevel_t)
    (file : string) (line : Z) (message : string) (tick : N)
    (buffer : list ascii) :
  level_filtered (output_range (config_param (g_rp_log w))) level = false ->
  strlen (log_prefix (config_param (g_rp_log w)) level file line tick)
    <= RP_LOG_ENTRY_MAX_SIZE ->
  RP_Log_Write ADDR_g_rp_log level file line message tick buffer w =
  let text := log_text (config_param (g_rp_log w)) level file line message tick in
  let len := kept_length (Z.of_nat (length text)) in
  let final := store (store (written buffer text) len CR) (len + 1) LF in
  let '(ret, rb) := RB_Push (ring_buffer (g_rp_log w)) final (uint16 (len + 1 + 1)) in
  Some (if negb (ret =? 0) then -1 else 0, set_ring_buffer w rb).
Proof.
  intros Hpass Hfit. unfold RP_Log_Write. rewrite Hpass.
  unfold log_text, log_prefix in *.
  rewrite <- chars_length in Hfit.
  destruct (negb (use_timestamp (config_param (g_rp_log w)) =? 0) && USE_HAL_DRIVER).
  - rewrite chars_app, length_app, Nat2Z.inj_add in Hfit.
    rewrite snprintf_first. cbn [mbind option_bind].
    rewrite <- !chars_length.
    rewrite (snprintf_next buffer (chars (fmt_timestamp tick))) by lia.
    cbn [mbind option_bind]. rewrite <- !chars_length.
    rewrite (snprintf_next buffer (chars (fmt_timestamp tick) ++ chars _))
      by (rewrite ?length_app, ?Nat2Z.inj_add; lia).
    cbn [mbind option_bind]. rewrite <- !chars_length.
    rewrite !chars_app, <- !app_assoc, !length_app, !Nat2Z.inj_add.
    rewrite Z.add_0_l, !Z.add_assoc.
    reflexivity.
  - cbn [String.append] in Hfit. cbn [mbind option_bind String.append].
    rewrite snprintf_first. cbn [mbind option_bind].
    rewrite <- !chars_length.
    rewrite (snprintf_next buffer (chars _)) by lia.
    cbn [mbind option_bind]. rewrite <- !chars_length.
    rewrite !chars_app, !length_app, !Nat2Z.inj_add.
    rewrite Z.add_0_l.
    reflexivity.
Qed.

Lemma snprintf_overflow (buffer : list ascii) (at_ size : Z) (text : string) :
  size < 0 -> snprintf buffer at_ size text = None.
Proof.
  intros Hneg. unfold snprintf.
  destruct (Z.ltb_spec size 0); [reflexivity | lia].
Qed.

(** A prefix longer than the local array makes the next [snprintf] store
    outside it. *)
Lemma RP_Log_Write_overflow `{Host} (w : World) (level : RP_LogLevel_t)
    (file : string) (line : Z) (message : string) (tick : N)
    (buffer : list ascii) :
  level_filtered (output_range (config_param (g_rp_log w))) level = false ->
  RP_LOG_ENTRY_MAX_SIZE
    < strlen (log_prefix (config_param (g_rp_log w)) level file line tick) ->
  RP_Log_Write ADDR_g_rp_log level file line message tick buffer w = None.
Proof.
  intros Hpass Hover. unfold RP_Log_Write. rewrite Hpass.
  unfold log_prefix in Hover. rewrite <- chars_length in Hover.
  destruct (negb (use_timestamp (config_param (g_rp_log w)) =? 0) && USE_HAL_DRIVER).
  - rewrite chars_app, length_app, Nat2Z.inj_add in Hover.
    rewrite snprintf_first. cbn [mbind option_bind].
    rewrite <- !chars_length.
    destruct (Z_le_gt_dec (Z.of_nat (length (chars (fmt_timestamp tick))))
                          RP_LOG_ENTRY_MAX_SIZE) as [Hts | Hts].
    + rewrite (snprintf_next buffer (chars (fmt_timestamp tick))) by lia.
      cbn [mbind option_bind]. rewrite <- !chars_length.
      rewrite snprintf_overflow by lia. reflexivity.
    + rewrite snprintf_overflow by lia. reflexivity.
  - cbn [String.append] in Hover. cbn [mbind option_bind].
    rewrite snprintf_first. cbn [mbind option_bind].
    rewrite <- !chars_length.
    rewrite snprintf_overflow by lia. reflexivity.
Qed.

(** A file name of 300 characters is such a prefix. *)
Example long_file_name_overflows :
  RP_Log_Write (H := uart_host) ADDR_g_rp_log RP_LOG_LEVEL_INFO
               (string_of_list_ascii (replicate 300 "f"%char)) 1 "msg" 0
               stack_garbage (boot uart_host idle_uart) = None.
Proof. vm_compute. reflexivity. Qed.

Lemma set_ring_buffer_same `{Host} (w : World) :
  set_ring_buffer w (ring_buffer (g_rp_log w)) = w.
Proof. destruct w as [[cfg rb] s]. reflexivity. Qed.

(** An accepted write with room in the buffer appends the terminated text
    to the queue and changes nothing else. *)
Lemma RP_Log_Write_accepted `{Host} (w : World) (level : RP_LogLevel_t)
    (file : string) (line : Z) (message : string) (tick : N)
    (buffer : list ascii) :
  world_inv w ->
  level_filtered (output_range (config_param (g_rp_log w))) level = false ->
  Z.of_nat (length buffer) = RP_LOG_ENTRY_MAX_SIZE ->
  strlen (log_prefix (config_param (g_rp_log w)) level file line tick)
    <= RP_LOG_ENTRY_MAX_SIZE ->
  rb_count (ring_buffer (g_rp_log w)) < RP_LOG_RING_BUFFER_CNT ->
  exists rb',
    RP_Log_Write ADDR_g_rp_log level file line message tick buffer w
    = Some (0, set_ring_buffer w rb') /\
    rb_count rb' = rb_count (ring_buffer (g_rp_log w)) + 1 /\
    rb_contents rb' =
    rb_contents (ring_buffer (g_rp_log w))
      ++ [terminated (log_text (config_param (g_rp_log w)) level file line message tick)] /\
    rb_inv rb' /\ rb_slots_wf rb'.
Proof.
  intros [Hinv Hwf] Hpass Hbuf Hfit Hroom.
  rewrite RP_Log_Write_renders by assumption. cbv zeta.
  set (text := log_text _ _ _ _ _ _).
  destruct (terminated_in_buffer buffer text Hbuf) as [Htake Hrec].
  cbv zeta in Htake, Hrec.
  set (len := kept_length (Z.of_nat (length text))) in *.
  set (final := store (store (written buffer text) len CR) (len + 1) LF) in *.
  assert (Hlen : 0 <= len + 1 + 1 <= RP_LOG_ENTRY_MAX_SIZE) by apply Hrec.
  rewrite uint16_small by (consts; lia).
  destruct (RB_Push_room _ final (len + 1 + 1) Hinv Hroom Hrec)
    as (Hret & Hcount & Hcontents).
  pose proof (RB_Push_inv _ final (len + 1 + 1) Hinv) as Hinv'.
  pose proof (RB_Push_slots_wf _ final (len + 1 + 1) Hinv Hwf Hrec) as Hwf'.
  destruct (RB_Push (ring_buffer (g_rp_log w)) final (len + 1 + 1)) as [ret rb'].
  cbn [fst snd] in *. subst ret. exists rb'.
  rewrite <- Htake. split; [reflexivity |].
  split; [exact Hcount |]. split; [exact Hcontents |]. split; assumption.
Qed.

Lemma RP_Log_Write_inv `{Host} (w w' : World) (log : RP_Log_ptr)
    (level : RP_LogLevel_t) (file : string) (line : Z) (message : string)
    (tick : N) (buffer : list ascii) (ret : Z) :
  world_inv w ->
  Z.of_nat (length buffer) = RP_LOG_ENTRY_MAX_SIZE ->
  RP_Log_Write log level file line message tick buffer w = Some (ret, w') ->
  world_inv w'.
Proof.
  intros [Hinv Hwf] Hbuf Hw.
  destruct log; [inversion Hw; subst; split; assumption |].
  destruct (level_filtered (output_range (config_param (g_rp_log w))) level)
    eqn:Hpass.
  - unfold RP_Log_Write in Hw. rewrite Hpass in Hw.
    inversion Hw; subst. split; assumption.
  - destruct (Z_le_gt_dec
                (strlen (log_prefix (config_param (g_rp_log w)) level file line tick))
                RP_LOG_ENTRY_MAX_SIZE) as [Hfit | Hover].
    + rewrite RP_Log_Write_renders in Hw by assumption. cbv zeta in Hw.
      set (text := log_text _ _ _ _ _ _) in *.
      destruct (terminated_in_buffer buffer text Hbuf) as [_ Hrec].
      cbv zeta in Hrec.
      set (len := kept_length (Z.of_nat (length text))) in *.
      set (final := store (store (written buffer text) len CR) (len + 1) LF) in *.
      assert (Hlen : 0 <= len + 1 + 1 <= RP_LOG_ENTRY_MAX_SIZE) by apply Hrec.
      rewrite uint16_small in Hw by (consts; lia).
      pose proof (RB_Push_inv _ final (len + 1 + 1) Hinv) as Hinv'.
      pose proof (RB_Push_slots_wf _ final (len + 1 + 1) Hinv Hwf Hrec) as Hwf'.
      destruct (RB_Push (ring_buffer (g_rp_log w)) final (len + 1 + 1)) as [r rb'].
      inversion Hw; subst. split; assumption.
    + rewrite RP_Log_Write_overflow in Hw by (assumption || lia). discriminate.
Qed.

Lemma RP_Log_Work_inv `{Host} (w : World) (log : RP_Log_ptr)
    (buffer : list ascii) (length : Z) :
  world_inv w -> world_inv (RP_Log_Work log buffer length w).
Proof.
  intros [Hinv Hwf]. destruct log; [split; assumption |].
  unfold RP_Log_Work.
  pose proof (RB_Pop_inv _ buffer length Hinv) as Hinv1.
  pose proof (RB_Pop_slots_wf _ buffer length Hwf) as Hwf1.
  destruct (Z.eqb_spec (rb_count (ring_buffer (g_rp_log w))) 0) as [Hempty | Hsome].
  - rewrite RB_Pop_empty by exact Hempty. cbn. split; assumption.
  - destruct (RB_Pop_some _ buffer length Hinv Hwf Hsome) as (Hret & _ & _ & Hrec).
    rewrite Hret. cbn [Z.eqb].
    destruct (RP_Log_Transmit _ _ _) as [ret wire'].
    destruct (negb (ret =? 0)); split; cbn; try assumption.
    + apply RB_Push_inv, Hinv1.
    + apply RB_Push_slots_wf; assumption.
Qed.

Lemma RP_Log_Flush_inv `{Host} (w : World) (log : RP_Log_ptr) :
  world_inv w -> world_inv (RP_Log_Flush log w).
Proof.
  intros Hw. destruct log; [exact Hw |].
  split; cbn; [apply rb_inv_zero | apply rb_slots_wf_zero].
Qed.

(** Every state of a sequential run satisfies the invariant. *)
Lemma reachable_inv `{Host} (w : World) : reachable w -> world_inv w.
Proof.
  induction 1 as [s | w cfg _ IH | w w' log level file line message tick
                                    buffer ret _ IH Hbuf Hw
                  | w log buffer length _ IH | w log _ IH].
  - split; cbn; [apply rb_inv_zero | apply rb_slots_wf_zero].
  - exact IH.
  - eapply RP_Log_Write_inv; eassumption.
  - apply RP_Log_Work_inv, IH.
  - apply RP_Log_Flush_inv, IH.
Qed.

(** A write that passes the filter while the buffer is full is dropped:
    it returns -1 and changes nothing. *)
Lemma RP_Log_Write_full `{Host} (w : World) (level : RP_LogLevel_t)
    (file : string) (line : Z) (message : string) (tick : N)
    (buffer : list ascii) :
  level_filtered (output_range (config_param (g_rp_log w))) level = false ->
  strlen (log_prefix (config_param (g_rp_log w)) level file line tick)
    <= RP_LOG_ENTRY_MAX_SIZE ->
  RP_LOG_RING_BUFFER_CNT <= rb_count (ring_buffer (g_rp_log w)) ->
  RP_Log_Write ADDR_g_rp_log level file line message tick buffer w = Some (-1, w).
Proof.
  intros Hpass Hfit Hfull.
  rewrite RP_Log_Write_renders by assumption. cbv zeta.
  rewrite RB_Push_full by exact Hfull.
  rewrite set_ring_buffer_same. reflexivity.
Qed.

(** Sixteen writes fill the buffer and the seventeenth is dropped; one
    work() with a transport that accepts the record brings the count to 15
    and puts the oldest record on the wire. *)
Example seventeenth_write_is_dropped :
  let w16 := Nat.iter 16 (logged (H := uart_host) "msg")
               (boot uart_host {| uart_script := [0]; uart_sent := [] |}) in
  RP_Log_GetCount ADDR_g_rp_log w16 = 16 /\
  RP_Log_Write (H := uart_host) ADDR_g_rp_log RP_LOG_LEVEL_INFO "main.c" 45
               "msg" 1234 stack_garbage w16 = Some (-1, w16) /\
  let w15 := RP_Log_Work (H := uart_host) ADDR_g_rp_log stack_garbage 0 w16 in
  RP_Log_GetCount ADDR_g_rp_log w15 = 15 /\
  uart_sent (wire w15) = [chars "[1234] [INFO ][main.c:45]: msg" ++ [CR; LF]].
Proof.
  cbv zeta. split; [vm_compute; reflexivity |]. split.
  - apply (RP_Log_Write_full (H := uart_host)).
    + reflexivity.
    + vm_compute. discriminate.
    + vm_compute. discriminate.
  - split; vm_compute; reflexivity.
Qed.

(** In a build without [USE_HAL_DRIVER] the tick segment is compiled out
    even with timestamps enabled. *)
Example no_hal_driver_no_ticks :
  rb_contents
    (ring_buffer (g_rp_log (logged (H := bare_host) "msg" (boot bare_host idle_uart))))
  = [chars "[INFO ][main.c:45]: msg" ++ [CR; LF]].
Proof. vm_compute. reflexivity. Qed.

(* ================================================================= *)
(** * Truncation (C3) *)

(** C3 as stated fails: a 300-byte message written at the initial state is
    accepted, its prefix and body exceed [RP_LOG_ENTRY_MAX_SIZE], and the
    record stored has length 255, not [RP_LOG_ENTRY_MAX_SIZE]. *)
Lemma C3_counterexample :
  let w := boot uart_host idle_uart in
  let w' := after_write uart_host idle_uart long_message in
  RP_Log_Write (H := uart_host) ADDR_g_rp_log RP_LOG_LEVEL_INFO "main.c" 45
               long_message 1234 stack_garbage w = Some (0, w') /\
  RP_LOG_ENTRY_MAX_SIZE
    <= Z.of_nat (length (log_text (H := uart_host) (config_param (g_rp_log w))
                                  RP_LOG_LEVEL_INFO "main.c" 45 long_message 1234)) /\
  e_length (entry_at (ring_buffer (g_rp_log w')) 0) = 255 /\
  Z.of_nat (length (newest (ring_buffer (g_rp_log w')))) <> RP_LOG_ENTRY_MAX_SIZE.
Proof.
  cbv zeta. split; [vm_compute; reflexivity |].
  split; [vm_compute; discriminate |].
  split; [vm_compute; reflexivity |].
  vm_compute. discriminate.
Qed.

(** C3 (amended). A write that passes the filter, finds room in the buffer
    and whose prefix fits the local array, and whose rendered prefix plus
    message body reaches [RP_LOG_ENTRY_MAX_SIZE - 2] bytes (so also when it
    reaches or exceeds [RP_LOG_ENTRY_MAX_SIZE]), returns 0 and stores a
    record of exactly [RP_LOG_ENTRY_MAX_SIZE - 1] = 255 bytes: the first 253
    bytes of the rendered text followed by CR LF, which are its last two
    bytes. *)
Theorem C3_truncated_record `{Host} (w : World) (level : RP_LogLevel_t)
    (file : string) (line : Z) (message : string) (tick : N)
    (buffer : list ascii) :
  world_inv w ->
  level_filtered (output_range (config_param (g_rp_log w))) level = false ->
  Z.of_nat (length buffer) = RP_LOG_ENTRY_MAX_SIZE ->
  strlen (log_prefix (config_param (g_rp_log w)) level file line tick)
    <= RP_LOG_ENTRY_MAX_SIZE ->
  rb_count (ring_buffer (g_rp_log w)) < RP_LOG_RING_BUFFER_CNT ->
  let text := log_text (config_param (g_rp_log w)) level file line message tick in
  RP_LOG_ENTRY_MAX_SIZE - 2 <= Z.of_nat (length text) ->
  exists rb',
    RP_Log_Write ADDR_g_rp_log level file line message tick buffer w
    = Some (0, set_ring_buffer w rb') /\
    rb_contents rb' = rb_contents (ring_buffer (g_rp_log w)) ++ [newest rb'] /\
    newest rb' = take 253 text ++ [CR; LF] /\
    Z.of_nat (length (newest rb')) = RP_LOG_ENTRY_MAX_SIZE - 1 /\
    ends_with_crlf (newest rb').
Proof.
  intros Hw Hpass Hbuf Hfit Hroom text Hlong.
  destruct (RP_Log_Write_accepted w level file line message tick buffer
              Hw Hpass Hbuf Hfit Hroom) as (rb' & Hret & _ & Hcontents & _).
  fold text in Hcontents.
  assert (Hrecord : terminated text = take 253 text ++ [CR; LF]).
  { unfold terminated, kept_length.
    destruct (Z.leb_spec (RP_LOG_ENTRY_MAX_SIZE - 2) (Z.of_nat (length text)));
      [reflexivity | lia]. }
  assert (Hnewest : newest rb' = take 253 text ++ [CR; LF]).
  { unfold newest. rewrite Hcontents, last_last. exact Hrecord. }
  assert (Hlen : length (take 253 text ++ [CR; LF]) = 255%nat).
  { rewrite length_app, length_take. cbn [length]. consts. lia. }
  exists rb'. split; [exact Hret |]. split; [| split; [exact Hnewest |]].
  - rewrite Hnewest, <- Hrecord. exact Hcontents.
  - rewrite Hnewest. split.
    + rewrite Hlen. reflexivity.
    + unfold ends_with_crlf. rewrite Hlen.
      change (255 - 2)%nat with 253%nat.
      rewrite drop_app_length'; [reflexivity |].
      rewrite length_take. consts. lia.
Qed.

Lemma world_inv_boot (H : Host) (s : Sink) : world_inv (boot H s).
Proof. apply reachable_inv, reach_init. Qed.

(** C3 (amended) on the 300-byte message written at the initial state. *)
Lemma C3_truncated_record_witness :
  let w := boot uart_host idle_uart in
  exists rb',
    RP_Log_Write (H := uart_host) ADDR_g_rp_log RP_LOG_LEVEL_INFO "main.c" 45
                 long_message 1234 stack_garbage w
    = Some (0, set_ring_buffer w rb') /\
    rb_contents rb' = rb_contents (ring_buffer (g_rp_log w)) ++ [newest rb'] /\
    newest rb' =
    take 253 (log_text (H := uart_host) (config_param (g_rp_log w))
                       RP_LOG_LEVEL_INFO "main.c" 45 long_message 1234)
      ++ [CR; LF] /\
    Z.of_nat (length (newest rb')) = RP_LOG_ENTRY_MAX_SIZE - 1 /\
    ends_with_crlf (newest rb').
Proof.
  apply (C3_truncated_record (H := uart_host) (boot uart_host idle_uart)
           RP_LOG_LEVEL_INFO "main.c" 45 long_message 1234 stack_garbage).
  - apply world_inv_boot.
  - reflexivity.
  - reflexivity.
  - vm_compute. discriminate.
  - vm_compute. reflexivity.
  - vm_compute. discriminate.
Defined.

(* ================================================================= *)
(** * Record format (C6) *)

Lemma log_text_layout `{Host} (cfg : RP_LogConfigParam_t) (level : RP_LogLevel_t)
    (file : string) (line : Z) (message : string) (tick : N) :
  log_text cfg level file line message tick =
  chars (if negb (use_timestamp cfg =? 0) && USE_HAL_DRIVER
         then stamped_layout tick level file line message
         else plain_layout level file line message).
Proof.
  unfold log_text, log_prefix, stamped_layout, plain_layout,
    fmt_timestamp, fmt_location.
  destruct (negb (use_timestamp cfg =? 0) && USE_HAL_DRIVER);
    rewrite !chars_app, <- ?app_assoc; reflexivity.
Qed.

(** C6 as stated fails on a long message: the write at the initial state
    (timestamps enabled) with a 300-byte message is accepted, and the record
    it produces is not the full layout followed by CR LF. *)
Lemma C6_counterexample :
  let w := boot uart_host idle_uart in
  let w' := after_write uart_host idle_uart long_message in
  RP_Log_Write (H := uart_host) ADDR_g_rp_log RP_LOG_LEVEL_INFO "main.c" 45
               long_message 1234 stack_garbage w = Some (0, w') /\
  use_timestamp (config_param (g_rp_log w)) = 1 /\
  newest (ring_buffer (g_rp_log w'))
  <> chars (stamped_layout 1234 RP_LOG_LEVEL_INFO "main.c" 45 long_message)
       ++ [CR; LF].
Proof.
  cbv zeta. split; [vm_compute; reflexivity |].
  split; [reflexivity |].
  intros Heq. apply (f_equal (@length ascii)) in Heq.
  vm_compute in Heq. discriminate.
Qed.

(** C6 (amended). For every accepted write whose rendered prefix plus
    message is at most [RP_LOG_ENTRY_MAX_SIZE - 3] = 253 bytes, the record
    produced is exactly ["[<ticks>] [<LEVEL>][<file>:<line>]: <message>"]
    followed by CR LF when timestamps are enabled (in a build that defines
    [USE_HAL_DRIVER]), and the same without the ["[<ticks>] "] segment, so
    beginning with ["[<LEVEL>]"], when they are disabled; [<LEVEL>] is the
    5-character name of the level and [<line>] is in decimal.  (A longer
    text is cut: see C3.) *)
Theorem C6_record_format `{Host} (w : World) (level : RP_LogLevel_t)
    (file : string) (line : Z) (message : string) (tick : N)
    (buffer : list ascii) :
  world_inv w ->
  level_filtered (output_range (config_param (g_rp_log w))) level = false ->
  Z.of_nat (length buffer) = RP_LOG_ENTRY_MAX_SIZE ->
  rb_count (ring_buffer (g_rp_log w)) < RP_LOG_RING_BUFFER_CNT ->
  let stamped :=
    negb (use_timestamp (config_param (g_rp_log w)) =? 0) && USE_HAL_DRIVER in
  let layout :=
    if stamped then stamped_layout tick level file line message
    else plain_layout level file line message in
  strlen layout <= RP_LOG_ENTRY_MAX_SIZE - 3 ->
  exists rb',
    RP_Log_Write ADDR_g_rp_log level file line message tick buffer w
    = Some (0, set_ring_buffer w rb') /\
    rb_contents rb' =
    rb_contents (ring_buffer (g_rp_log w)) ++ [chars layout ++ [CR; LF]] /\
    String.length (g_level_names level) = 5%nat.
Proof.
  intros Hw Hpass Hbuf Hroom stamped layout Hshort.
  pose proof (log_text_layout (config_param (g_rp_log w)) level file line
                message tick) as Htext.
  fold stamped in Htext. fold layout in Htext.
  assert (Hfit : strlen (log_prefix (config_param (g_rp_log w)) level file line tick)
                 <= RP_LOG_ENTRY_MAX_SIZE).
  { rewrite <- chars_length in Hshort. rewrite <- Htext in Hshort.
    unfold log_text in Hshort.
    rewrite chars_app, length_app, Nat2Z.inj_add in Hshort.
    rewrite <- chars_length. lia. }
  destruct (RP_Log_Write_accepted w level file line message tick buffer
              Hw Hpass Hbuf Hfit Hroom) as (rb' & Hret & _ & Hcontents & _).
  exists rb'. split; [exact Hret |]. split; [| destruct level; reflexivity].
  rewrite Hcontents, Htext. do 2 f_equal.
  unfold terminated, kept_length. rewrite chars_length.
  destruct (Z.leb_spec (RP_LOG_ENTRY_MAX_SIZE - 2) (strlen layout)) as [Hlong | _];
    [lia |].
  rewrite <- chars_length, Nat2Z.id, firstn_all. reflexivity.
Qed.

(** C6 (amended) on two short messages, with and without timestamps. *)
Lemma C6_record_format_witness :
  (exists rb',
     RP_Log_Write (H := uart_host) ADDR_g_rp_log RP_LOG_LEVEL_INFO
                  "Core/Src/main.c" 45 "System started" 1234 stack_garbage
                  (boot uart_host idle_uart)
     = Some (0, set_ring_buffer (boot uart_host idle_uart) rb') /\
     rb_contents rb' =
     [chars "[1234] [INFO ][main.c:45]: System started" ++ [CR; LF]]) /\
  (exists rb',
     let w := with_config (boot uart_host idle_uart)
                {| output_range := RP_LOG_OUTPUT_ALL;
                   use_timestamp := 0; rtt_use_color := 1 |} in
     RP_Log_Write (H := uart_host) ADDR_g_rp_log RP_LOG_LEVEL_WARN
                  "Core/Src/main.c" 45 "Battery low" 1234 stack_garbage w
     = Some (0, set_ring_buffer w rb') /\
     rb_contents rb' = [chars "[WARN ][main.c:45]: Battery low" ++ [CR; LF]]).
Proof.
  split.
  - destruct (C6_record_format (H := uart_host) (boot uart_host idle_uart)
                RP_LOG_LEVEL_INFO "Core/Src/main.c" 45 "System started" 1234
                stack_garbage)
      as (rb' & Hret & Hcontents & _).
    + apply world_inv_boot.
    + reflexivity.
    + reflexivity.
    + vm_compute. reflexivity.
    + vm_compute. discriminate.
    + exists rb'. split; [exact Hret | exact Hcontents].
  - destruct (C6_record_format (H := uart_host)
                (with_config (boot uart_host idle_uart)
                   {| output_range := RP_LOG_OUTPUT_ALL;
                      use_timestamp := 0; rtt_use_color := 1 |})
                RP_LOG_LEVEL_WARN "Core/Src/main.c" 45 "Battery low" 1234
                stack_garbage)
      as (rb' & Hret & Hcontents & _).
    + apply (reachable_inv (H := uart_host)).
      apply (reach_config (H := uart_host)), (reach_init (H := uart_host)).
    + reflexivity.
    + reflexivity.
    + vm_compute. reflexivity.
    + vm_compute. discriminate.
    + exists rb'. split; [exact Hret | exact Hcontents].
Defined.

(* ================================================================= *)
(** * Level filter (C4) *)

Lemma RP_Log_Write_filtered `{Host} (w : World) (level : RP_LogLevel_t)
    (file : string) (line : Z) (message : string) (tick : N)
    (buffer : list ascii) :
  level_filtered (output_range (config_param (g_rp_log w))) level = true ->
  RP_Log_Write ADDR_g_rp_log level file line message tick buffer w = Some (-1, w).
Proof. intros Hf. unfold RP_Log_Write. rewrite Hf. reflexivity. Qed.

(** C4. The filter of [RP_Log_Write] lets a level through exactly when it
    is at most the configured maximum under FATAL = 0 < ERROR < WARN < INFO
    < DEBUG < TRACE; [RP_LOG_OUTPUT_ALL] lets every level through and
    [RP_LOG_OUTPUT_FATAL_ONLY] only FATAL; a write the filter stops returns
    -1 and changes nothing.  With [RP_LOG_OUTPUT_FATAL_TO_WARN], a write at
    INFO returns -1 and leaves the count as it was, and a write at WARN with
    room in the buffer (and a prefix that fits the local array) returns 0
    and raises the count by one. *)
Theorem C4_level_filter :
  (forall range level,
     level_filtered range level = false <->
     level_value level <= level_value (configured_maximum range)) /\
  (forall level, level_filtered RP_LOG_OUTPUT_ALL level = false) /\
  (forall level,
     level_filtered RP_LOG_OUTPUT_FATAL_ONLY level = false <->
     level = RP_LOG_LEVEL_FATAL) /\
  (forall (H : Host) (w : World) level file line message tick buffer,
     level_filtered (output_range (config_param (g_rp_log w))) level = true ->
     RP_Log_Write ADDR_g_rp_log level file line message tick buffer w
     = Some (-1, w)) /\
  (forall (H : Host) (w : World) file line message tick buffer,
     output_range (config_param (g_rp_log w)) = RP_LOG_OUTPUT_FATAL_TO_WARN ->
     exists w',
       RP_Log_Write ADDR_g_rp_log RP_LOG_LEVEL_INFO file line message tick buffer w
       = Some (-1, w') /\
       RP_Log_GetCount ADDR_g_rp_log w' = RP_Log_GetCount ADDR_g_rp_log w) /\
  (forall (H : Host) (w : World) file line message tick buffer,
     output_range (config_param (g_rp_log w)) = RP_LOG_OUTPUT_FATAL_TO_WARN ->
     world_inv w ->
     Z.of_nat (length buffer) = RP_LOG_ENTRY_MAX_SIZE ->
     strlen (log_prefix (config_param (g_rp_log w)) RP_LOG_LEVEL_WARN file line tick)
       <= RP_LOG_ENTRY_MAX_SIZE ->
     RP_Log_GetCount ADDR_g_rp_log w < RP_LOG_RING_BUFFER_CNT ->
     exists w',
       RP_Log_Write ADDR_g_rp_log RP_LOG_LEVEL_WARN file line message tick buffer w
       = Some (0, w') /\
       RP_Log_GetCount ADDR_g_rp_log w' = RP_Log_GetCount ADDR_g_rp_log w + 1).
Proof.
  split; [| split; [| split; [| split; [| split]]]].
  - intros range level. destruct range, level; cbn; split; intros; lia || congruence.
  - intros level. reflexivity.
  - intros level. destruct level; cbn; split; intros; congruence.
  - intros H w level file line message tick buffer Hf.
    apply RP_Log_Write_filtered, Hf.
  - intros H w file line message tick buffer Hrange.
    exists w. split; [| reflexivity].
    apply RP_Log_Write_filtered. rewrite Hrange. reflexivity.
  - intros H w file line message tick buffer Hrange Hw Hbuf Hfit Hroom.
    destruct (RP_Log_Write_accepted w RP_LOG_LEVEL_WARN file line message tick
                buffer Hw ltac:(rewrite Hrange; reflexivity) Hbuf Hfit Hroom)
      as (rb' & Hret & Hcount & _).
    exists (set_ring_buffer w rb'). split; [exact Hret | exact Hcount].
Qed.

(** C4 on the initial state configured with [RP_LOG_OUTPUT_FATAL_TO_WARN]:
    the INFO write is refused and the count stays 0, the WARN write is
    accepted and the count becomes 1. *)
Lemma C4_level_filter_witness :
  let w := with_config (boot uart_host idle_uart)
             {| output_range := RP_LOG_OUTPUT_FATAL_TO_WARN;
                use_timestamp := 1; rtt_use_color := 1 |} in
  (exists w',
     RP_Log_Write (H := uart_host) ADDR_g_rp_log RP_LOG_LEVEL_INFO "main.c" 45
                  "System started" 1234 stack_garbage w = Some (-1, w') /\
     RP_Log_GetCount ADDR_g_rp_log w' = 0) /\
  (exists w',
     RP_Log_Write (H := uart_host) ADDR_g_rp_log RP_LOG_LEVEL_WARN "main.c" 45
                  "Battery low" 1234 stack_garbage w = Some (0, w') /\
     RP_Log_GetCount ADDR_g_rp_log w' = 1).
Proof.
  cbv zeta.
  destruct C4_level_filter as (_ & _ & _ & _ & Hinfo & Hwarn).
  split.
  - apply (Hinfo uart_host). reflexivity.
  - apply (Hwarn uart_host).
    + reflexivity.
    + apply (reachable_inv (H := uart_host)).
      apply (reach_config (H := uart_host)), (reach_init (H := uart_host)).
    + reflexivity.
    + vm_compute. discriminate.
    + vm_compute. reflexivity.
Defined.

(* ================================================================= *)
(** * The consumer side: [RP_Log_Work] (C5, C10) *)

(** [RP_Log_Work] on a buffer that is not empty: the oldest record is
    handed to the transport, and pushed again when the transport refuses
    it. *)
Lemma RP_Log_Work_some `{Host} (w : World) (buffer : list ascii) (length : Z) :
  rb_count (ring_buffer (g_rp_log w)) <> 0 ->
  let p := RB_Pop (ring_buffer (g_rp_log w)) buffer length in
  let sent := RP_Log_Transmit (pop_data p) (pop_length p) (wire w) in
  RP_Log_Work ADDR_g_rp_log buffer length w =
  {| g_rp_log :=
       {| config_param := config_param (g_rp_log w);
          ring_buffer :=
            if negb (fst sent =? 0)
            then snd (RB_Push (pop_rb p) (pop_data p) (pop_length p))
            else pop_rb p |};
     wire := snd sent |}.
Proof.
  intros Hsome p sent. unfold RP_Log_Work. fold p.
  assert (Hret : pop_ret p = 0).
  { unfold p, RB_Pop, RB_IsEmpty.
    destruct (Z.eqb_spec (rb_count (ring_buffer (g_rp_log w))) 0);
      [contradiction | reflexivity]. }
  rewrite Hret. cbn [Z.eqb]. fold sent. destruct sent as [ret wire']. reflexivity.
Qed.

Lemma rb_contents_some (rb : RP_LogRingBuffer_t) (r : list ascii)
    (q : list (list ascii)) :
  rb_contents rb = r :: q -> rb_count rb <> 0.
Proof.
  intros Hq Hzero. unfold rb_contents in Hq. rewrite Hzero in Hq. discriminate.
Qed.

(** Popping the oldest record and pushing it again always succeeds in a
    well-formed buffer, and moves the record to the back of the queue. *)
Lemma pop_then_push (rb : RP_LogRingBuffer_t) (buffer : list ascii) (length : Z)
    (r : list ascii) (q : list (list ascii)) :
  rb_inv rb -> rb_slots_wf rb -> rb_contents rb = r :: q ->
  let p := RB_Pop rb buffer length in
  pop_ret p = 0 /\
  take (Z.to_nat (pop_length p)) (pop_data p) = r /\
  rb_contents (pop_rb p) = q /\
  fst (RB_Push (pop_rb p) (pop_data p) (pop_length p)) = 0 /\
  rb_count (snd (RB_Push (pop_rb p) (pop_data p) (pop_length p))) = rb_count rb /\
  rb_contents (snd (RB_Push (pop_rb p) (pop_data p) (pop_length p))) = q ++ [r].
Proof.
  intros Hinv Hwf Hq p.
  pose proof (rb_contents_some rb r q Hq) as Hsome.
  destruct (RB_Pop_some rb buffer length Hinv Hwf Hsome)
    as (Hret & Hcount & Hcontents & Hrec).
  fold p in Hret, Hcount, Hcontents, Hrec.
  rewrite Hq in Hcontents.
  assert (Hr : take (Z.to_nat (pop_length p)) (pop_data p) = r) by congruence.
  assert (Hrest : rb_contents (pop_rb p) = q) by congruence.
  clear Hcontents.
  pose proof (inv_count rb Hinv) as Hc.
  destruct (RB_Push_room (pop_rb p) (pop_data p) (pop_length p)
              (RB_Pop_inv rb buffer length Hinv) ltac:(lia) Hrec)
    as (Hpush & Hcount' & Hcontents').
  split; [exact Hret |]. split; [exact Hr |].
  split; [exact Hrest |]. split; [exact Hpush |]. split; [lia |].
  rewrite Hcontents', Hr, Hrest. reflexivity.
Qed.

(** C5 as stated fails: with two records buffered, the call of work() whose
    send fails leaves the count at 2, and the next call, whose send
    succeeds, transmits the second record, not the one that was popped and
    re-pushed. *)
Lemma C5_counterexample :
  let first := chars "[1234] [INFO ][main.c:45]: first" ++ [CR; LF] in
  let second := chars "[1234] [INFO ][main.c:45]: second" ++ [CR; LF] in
  let w := two_buffered in
  let w1 := RP_Log_Work (H := uart_host) ADDR_g_rp_log stack_garbage 0 w in
  let w2 := RP_Log_Work (H := uart_host) ADDR_g_rp_log stack_garbage 0 w1 in
  rb_contents (ring_buffer (g_rp_log w)) = [first; second] /\
  uart_sent (wire w1) = [] /\
  RP_Log_GetCount ADDR_g_rp_log w1 = RP_Log_GetCount ADDR_g_rp_log w /\
  uart_sent (wire w2) = [second] /\
  uart_sent (wire w2) <> [first].
Proof.
  cbv zeta. repeat split; try (vm_compute; reflexivity).
  vm_compute. discriminate.
Qed.

(** C5 (amended). When work() pops a record and the transport send fails,
    the record is pushed again, so get_count() after the call equals the
    count before it; the record goes to the back of the queue, behind the
    records that were buffered with it.  The next work() call hands the
    transport the oldest of those records, and the re-pushed record only
    when no other record was buffered. *)
Theorem C5_send_failure_requeues `{Host} (w : World) (buffer : list ascii)
    (length : Z) (r : list ascii) (q : list (list ascii)) :
  world_inv w ->
  rb_contents (ring_buffer (g_rp_log w)) = r :: q ->
  let p := RB_Pop (ring_buffer (g_rp_log w)) buffer length in
  fst (RP_Log_Transmit (pop_data p) (pop_length p) (wire w)) <> 0 ->
  let w' := RP_Log_Work ADDR_g_rp_log buffer length w in
  take (Z.to_nat (pop_length p)) (pop_data p) = r /\
  wire w' = snd (RP_Log_Transmit (pop_data p) (pop_length p) (wire w)) /\
  RP_Log_GetCount ADDR_g_rp_log w' = RP_Log_GetCount ADDR_g_rp_log w /\
  rb_contents (ring_buffer (g_rp_log w')) = q ++ [r] /\
  forall (buffer' : list ascii) (length' : Z),
    let p' := RB_Pop (ring_buffer (g_rp_log w')) buffer' length' in
    take (Z.to_nat (pop_length p')) (pop_data p') = hd r q /\
    wire (RP_Log_Work ADDR_g_rp_log buffer' length' w') =
    snd (RP_Log_Transmit (pop_data p') (pop_length p') (wire w')).
Proof.
  intros Hw Hq p Hfail w'.
  pose proof (RP_Log_Work_inv w ADDR_g_rp_log buffer length Hw) as Hw'.
  fold w' in Hw'.
  destruct Hw as [Hinv Hwf].
  destruct (pop_then_push _ buffer length r q Hinv Hwf Hq)
    as (_ & Hr & _ & _ & Hcount & Hcontents).
  fold p in Hr, Hcount, Hcontents.
  assert (Hwork : w' =
            {| g_rp_log :=
                 {| config_param := config_param (g_rp_log w);
                    ring_buffer := snd (RB_Push (pop_rb p) (pop_data p) (pop_length p)) |};
               wire := snd (RP_Log_Transmit (pop_data p) (pop_length p) (wire w)) |}).
  { unfold w'. rewrite RP_Log_Work_some by (eapply rb_contents_some; exact Hq).
    fold p. apply Z.eqb_neq in Hfail. rewrite Hfail. reflexivity. }
  assert (Hq' : rb_contents (ring_buffer (g_rp_log w')) = q ++ [r])
    by (rewrite Hwork; exact Hcontents).
  split; [exact Hr |]. split; [rewrite Hwork; reflexivity |].
  split; [rewrite Hwork; exact Hcount |]. split; [exact Hq' |].
  intros buffer' length' p'.
  assert (Hq'' : rb_contents (ring_buffer (g_rp_log w')) = hd r q :: tl (q ++ [r]))
    by (rewrite Hq'; destruct q; reflexivity).
  destruct Hw' as [Hinv' Hwf'].
  destruct (pop_then_push _ buffer' length' _ _ Hinv' Hwf' Hq'') as (_ & Hr' & _).
  split; [exact Hr' |].
  rewrite RP_Log_Work_some by (eapply rb_contents_some; exact Hq'').
  reflexivity.
Qed.

Lemma reachable_logged `{Host} (message : string) (w : World) :
  reachable w -> reachable (logged message w).
Proof.
  intros Hw. unfold logged.
  destruct (RP_Log_Write _ _ _ _ _ _ _ w) as [[ret w'] |] eqn:Hwrite;
    [| exact Hw].
  eapply reach_write; [exact Hw | | exact Hwrite]. reflexivity.
Qed.

Lemma reachable_two_buffered : reachable (H := uart_host) two_buffered.
Proof.
  unfold two_buffered. do 2 apply (reachable_logged (H := uart_host)).
  apply (reach_init (H := uart_host)).
Qed.

(** C5 (amended) on two buffered records and a transport that refuses the
    call: the count stays 2 and the first record is now behind the second. *)
Lemma C5_send_failure_requeues_witness :
  let first := chars "[1234] [INFO ][main.c:45]: first" ++ [CR; LF] in
  let second := chars "[1234] [INFO ][main.c:45]: second" ++ [CR; LF] in
  let w' := RP_Log_Work (H := uart_host) ADDR_g_rp_log stack_garbage 0 two_buffered in
  RP_Log_GetCount ADDR_g_rp_log w' = RP_Log_GetCount ADDR_g_rp_log two_buffered /\
  rb_contents (ring_buffer (g_rp_log w')) = [second; first].
Proof.
  cbv zeta.
  destruct (C5_send_failure_requeues (H := uart_host) two_buffered stack_garbage 0
              (chars "[1234] [INFO ][main.c:45]: first" ++ [CR; LF])
              [chars "[1234] [INFO ][main.c:45]: second" ++ [CR; LF]])
    as (_ & _ & Hcount & Hcontents & _).
  - apply (reachable_inv (H := uart_host)), reachable_two_buffered.
  - vm_compute. reflexivity.
  - vm_compute. discriminate.
  - split; [exact Hcount | exact Hcontents].
Defined.

(** C10. In a sequential run, whenever the pop inside work() succeeds, the
    push of the popped record that follows a send failure returns 0: the pop
    has taken the count below the capacity.  After a work() call whose send
    fails, the popped record is in the buffer again (as its newest record),
    together with every other record that was buffered. *)
Theorem C10_repush_never_fails `{Host} (w : World) (buffer : list ascii)
    (length : Z) :
  reachable w ->
  let p := RB_Pop (ring_buffer (g_rp_log w)) buffer length in
  pop_ret p = 0 ->
  rb_count (pop_rb p) < RP_LOG_RING_BUFFER_CNT /\
  fst (RB_Push (pop_rb p) (pop_data p) (pop_length p)) = 0 /\
  (fst (RP_Log_Transmit (pop_data p) (pop_length p) (wire w)) <> 0 ->
   rb_contents (ring_buffer (g_rp_log (RP_Log_Work ADDR_g_rp_log buffer length w)))
   = tl (rb_contents (ring_buffer (g_rp_log w)))
       ++ [take (Z.to_nat (pop_length p)) (pop_data p)]).
Proof.
  intros Hreach p Hret.
  pose proof (reachable_inv w Hreach) as Hw.
  assert (Hsome : rb_count (ring_buffer (g_rp_log w)) <> 0).
  { intros Hzero. unfold p in Hret. rewrite RB_Pop_empty in Hret by exact Hzero.
    discriminate. }
  destruct (rb_contents (ring_buffer (g_rp_log w))) as [| r q] eqn:Hq.
  { destruct Hw as [Hinv _].
    pose proof (rb_contents_length _ (proj1 (inv_count _ Hinv))) as Hlen.
    rewrite Hq in Hlen. cbn in Hlen. lia. }
  destruct Hw as [Hinv Hwf].
  destruct (pop_then_push _ buffer length r q Hinv Hwf Hq)
    as (_ & Hr & _ & Hpush & Hcount & Hcontents).
  fold p in Hr, Hpush, Hcount, Hcontents.
  destruct (RB_Pop_some _ buffer length Hinv Hwf Hsome) as (_ & Hpopped & _).
  fold p in Hpopped.
  pose proof (inv_count _ Hinv) as Hc.
  split; [lia |]. split; [exact Hpush |].
  intros Hfail.
  rewrite RP_Log_Work_some by exact Hsome. fold p.
  apply Z.eqb_neq in Hfail. rewrite Hfail. cbn [negb ring_buffer g_rp_log tl].
  rewrite Hcontents, Hr. reflexivity.
Qed.

(** C10 with the source's own weak [RP_Log_Transmit], which always fails:
    the record written is still buffered after work(). *)
Lemma C10_repush_never_fails_witness :
  let w := logged (H := weak_host) "first" (boot weak_host tt) in
  let p := RB_Pop (ring_buffer (g_rp_log w)) stack_garbage 0 in
  fst (RB_Push (pop_rb p) (pop_data p) (pop_length p)) = 0 /\
  rb_contents
    (ring_buffer
       (g_rp_log (RP_Log_Work (H := weak_host) ADDR_g_rp_log stack_garbage 0 w)))
  = [chars "[1234] [INFO ][main.c:45]: first" ++ [CR; LF]].
Proof.
  cbv zeta.
  destruct (C10_repush_never_fails (H := weak_host)
              (logged (H := weak_host) "first" (boot weak_host tt))
              stack_garbage 0)
    as (_ & Hpush & Hkept).
  - apply (reachable_logged (H := weak_host)), (reach_init (H := weak_host)).
  - vm_compute. reflexivity.
  - split; [exact Hpush |].
    rewrite Hkept by (vm_compute; discriminate).
    vm_compute. reflexivity.
Defined.

(* ================================================================= *)
(** * File-name extraction (C7) *)

(** *** Where the extraction is right *)

Lemma has_separator_occurs (s : string) :
  has_separator s = occurs "/" s || occurs backslash s.
Proof.
  induction s as [| a s IH]; [reflexivity |].
  cbn [has_separator occurs]. rewrite IH. unfold is_separator.
  destruct (Ascii.eqb a "/"), (Ascii.eqb a backslash), (occurs "/" s),
    (occurs backslash s); reflexivity.
Qed.

Lemma strrchr_none (s : string) (c : ascii) :
  strrchr s c = None <-> occurs c s = false.
Proof.
  induction s as [| a s IH]; [split; reflexivity |].
  cbn [strrchr occurs].
  destruct (strrchr s c) as [found |].
  - split; [discriminate |]. intros Hno.
    apply orb_false_elim in Hno as [_ Hno]. apply IH in Hno. discriminate.
  - assert (Hs : occurs c s = false) by (apply IH; reflexivity).
    rewrite Hs, orb_false_r. destruct (Ascii.eqb a c); split; congruence.
Qed.

(** A result of [strrchr] points at [c], with no [c] after it, inside [s]. *)
Lemma strrchr_some (s found : string) (c : ascii) :
  strrchr s c = Some found ->
  exists before after,
    found = String c after /\ occurs c after = false /\
    s = String.append before found.
Proof.
  revert found. induction s as [| a s IH]; intros found Hfound; [discriminate |].
  cbn [strrchr] in Hfound.
  destruct (strrchr s c) as [inner |] eqn:Hinner.
  - inversion Hfound; subst inner.
    destruct (IH found eq_refl) as (before & after & Hf & Hno & Hs).
    exists (String a before), after. rewrite Hs at 1.
    split; [exact Hf |]. split; [exact Hno | reflexivity].
  - destruct (Ascii.eqb_spec a c) as [Hac | _]; [| discriminate].
    inversion Hfound; subst a.
    exists EmptyString, s. split; [reflexivity |]. split; [| reflexivity].
    apply strrchr_none, Hinner.
Qed.

Lemma occurs_append (c : ascii) (before s : string) :
  occurs c (String.append before s) = occurs c before || occurs c s.
Proof.
  induction before as [| a before IH]; [reflexivity |].
  cbn [String.append occurs]. rewrite IH, orb_assoc. reflexivity.
Qed.

Lemma last_component_no_separator (s : string) :
  has_separator s = false -> last_component s = s.
Proof.
  destruct s as [| a s]; [reflexivity |].
  cbn [has_separator last_component]. intros Hno. rewrite Hno. reflexivity.
Qed.

Lemma last_component_after (before after : string) (c : ascii) :
  is_separator c = true -> has_separator after = false ->
  last_component (String.append before (String c after)) = after.
Proof.
  intros Hsep Hno. induction before as [| a before IH].
  - cbn [String.append last_component]. rewrite Hsep. cbn [orb].
    apply last_component_no_separator, Hno.
  - cbn [String.append last_component].
    assert (Hhas : has_separator (String.append before (String c after)) = true).
    { rewrite has_separator_occurs, !occurs_append. cbn [occurs].
      unfold is_separator in Hsep.
      destruct (Ascii.eqb c "/"), (Ascii.eqb c backslash); try discriminate;
        rewrite ?orb_true_r; reflexivity. }
    rewrite Hhas, orb_true_r. exact IH.
Qed.

(** On a path with one kind of separator, and on a mixed path with no
    ['/'] after its last ['\'], the extraction yields the last path
    component. *)
Lemma extract_filename_last_component (file : string) :
  match strrchr file backslash with
  | Some slash => occurs "/" (next_char slash) = false
  | None => True
  end ->
  extract_filename file = last_component file.
Proof.
  unfold extract_filename. intros Hcond.
  destruct (strrchr file backslash) as [slash |] eqn:Hback.
  - destruct (strrchr_some file slash backslash Hback)
      as (before & after & Hslash & Hno & Hfile).
    subst slash. cbn [next_char] in *. rewrite Hfile.
    symmetry. apply last_component_after.
    + reflexivity.
    + rewrite has_separator_occurs, Hcond, Hno. reflexivity.
  - apply strrchr_none in Hback.
    destruct (strrchr file "/") as [slash |] eqn:Hfwd.
    + destruct (strrchr_some file slash "/" Hfwd)
        as (before & after & Hslash & Hno & Hfile).
      subst slash. cbn [next_char]. rewrite Hfile.
      symmetry. apply last_component_after.
      * reflexivity.
      * rewrite has_separator_occurs, Hno.
        rewrite Hfile, occurs_append in Hback. cbn [occurs] in Hback.
        apply orb_false_elim in Hback as [_ Hback].
        apply orb_false_elim in Hback as [_ Hback].
        rewrite Hback. reflexivity.
    + apply strrchr_none in Hfwd. symmetry.
      apply last_component_no_separator.
      rewrite has_separator_occurs, Hfwd, Hback. reflexivity.
Qed.

(** C7 fails on the code: for the path [lib\src/main.c] the file component
    [RP_Log_Write] renders is [src/main.c], which still holds a separator,
    while the last path component is [main.c]. *)
Theorem C7_mixed_separators :
  extract_filename mixed_path = "src/main.c"%string /\
  last_component mixed_path = "main.c"%string /\
  has_separator (extract_filename mixed_path) = true /\
  extract_filename mixed_path <> last_component mixed_path.
Proof.
  split; [reflexivity |]. split; [reflexivity |]. split; [reflexivity |].
  vm_compute. discriminate.
Qed.

(* ================================================================= *)
(** * Flush and null pointers (C8, C9) *)

(** C8. Two calls of flush in a row each leave get_count() at 0, the second
    changes nothing, the ring buffer is the all-zero one of a newly
    initialised facility, and a push after the second flush does exactly
    what it does on that buffer: it returns 0 and leaves [head] = 1,
    [tail] = 0 and [count] = 1. *)
Theorem C8_flush_idempotent `{Host} (w : World) :
  let w1 := RP_Log_Flush ADDR_g_rp_log w in
  let w2 := RP_Log_Flush ADDR_g_rp_log w1 in
  RP_Log_GetCount ADDR_g_rp_log w1 = 0 /\
  RP_Log_GetCount ADDR_g_rp_log w2 = 0 /\
  w2 = w1 /\
  ring_buffer (g_rp_log w2) = ring_buffer g_rp_log_init /\
  forall (data : list ascii) (length : Z),
    RB_Push (ring_buffer (g_rp_log w2)) data length
    = RB_Push (ring_buffer g_rp_log_init) data length /\
    fst (RB_Push (ring_buffer (g_rp_log w2)) data length) = 0 /\
    rb_head (snd (RB_Push (ring_buffer (g_rp_log w2)) data length)) = 1 /\
    rb_tail (snd (RB_Push (ring_buffer (g_rp_log w2)) data length)) = 0 /\
    rb_count (snd (RB_Push (ring_buffer (g_rp_log w2)) data length)) = 1.
Proof.
  cbv zeta. repeat split.
Qed.

(** C9. With a null facility pointer, write returns -1, get_count returns
    0, and work and flush return; none of them changes the state, whatever
    it is, and the transport is not called. *)
Theorem C9_null_pointer_noop `{Host} (w : World) (level : RP_LogLevel_t)
    (file : string) (line : Z) (message : string) (tick : N)
    (buffer : list ascii) (length : Z) :
  RP_Log_Write NULL level file line message tick buffer w = Some (-1, w) /\
  RP_Log_GetCount NULL w = 0 /\
  RP_Log_Work NULL buffer length w = w /\
  RP_Log_Flush NULL w = w.
Proof. repeat split. Qed.

(* ================================================================= *)
(** * Further properties of the ring buffer *)

(** A length above the capacity of a slot is cut to it. *)
Lemma RB_Push_clamp (rb : RP_LogRingBuffer_t) (data : list ascii) (length : Z) :
  RB_Push rb data length = RB_Push rb data (Z.min length RP_LOG_ENTRY_MAX_SIZE).
Proof.
  unfold RB_Push. destruct (RB_IsFull rb); [reflexivity |].
  destruct (Z.ltb_spec RP_LOG_ENTRY_MAX_SIZE length) as [Hbig | Hfit].
  - rewrite Z.min_r by lia. rewrite Z.ltb_irrefl. reflexivity.
  - rewrite Z.min_l by lia.
    destruct (Z.ltb_spec RP_LOG_ENTRY_MAX_SIZE length); [lia | reflexivity].
Qed.

Lemma RB_Push_indices (rb : RP_LogRingBuffer_t) (data : list ascii) (length : Z) :
  rb_inv rb -> rb_count rb < RP_LOG_RING_BUFFER_CNT ->
  rb_tail (snd (RB_Push rb data length)) = rb_tail rb /\
  rb_head (snd (RB_Push rb data length))
  = (rb_head rb + 1) mod RP_LOG_RING_BUFFER_CNT.
Proof.
  intros Hinv Hroom. pose proof (rb_inv_head_bound rb Hinv) as Hhead.
  unfold RB_Push, RB_IsFull.
  destruct (Z.leb_spec RP_LOG_RING_BUFFER_CNT (rb_count rb)); [lia |].
  cbn [snd rb_tail rb_head]. split; [reflexivity |].
  apply RB_GetNextIndex_wraps, Hhead.
Qed.

(** X1. [RB_Push] on a buffer with room returns 0 and appends to the queue
    the first [length] bytes of [data], or the first
    [RP_LOG_ENTRY_MAX_SIZE] when [length] is larger; [count] grows by one,
    [head] advances by one modulo the capacity, [tail] stays, and the
    records already buffered are untouched. *)
Theorem RB_Push_appends (rb : RP_LogRingBuffer_t) (data : list ascii) (length : Z) :
  rb_inv rb ->
  rb_count rb < RP_LOG_RING_BUFFER_CNT ->
  0 <= length ->
  Z.min length RP_LOG_ENTRY_MAX_SIZE <= Z.of_nat (List.length data) ->
  let rb' := snd (RB_Push rb data length) in
  fst (RB_Push rb data length) = 0 /\
  rb_inv rb' /\
  rb_count rb' = rb_count rb + 1 /\
  rb_tail rb' = rb_tail rb /\
  rb_head rb' = (rb_head rb + 1) mod RP_LOG_RING_BUFFER_CNT /\
  rb_contents rb' =
  rb_contents rb ++ [take (Z.to_nat (Z.min length RP_LOG_ENTRY_MAX_SIZE)) data].
Proof.
  intros Hinv Hroom Hpos Hdata rb'.
  assert (Hrec : record_wf data (Z.min length RP_LOG_ENTRY_MAX_SIZE)).
  { split; [consts; lia | exact Hdata]. }
  destruct (RB_Push_indices rb data length Hinv Hroom) as [Htail Hhead].
  pose proof (RB_Push_inv rb data length Hinv) as Hinv'.
  unfold rb'. rewrite RB_Push_clamp in *.
  destruct (RB_Push_room rb data _ Hinv Hroom Hrec) as (Hret & Hcount & Hcontents).
  repeat (split; [assumption |]). exact Hcontents.
Qed.

Lemma RB_Push_appends_witness :
  let rb' := snd (RB_Push one_buffered (chars "new") 3) in
  fst (RB_Push one_buffered (chars "new") 3) = 0 /\
  rb_count rb' = 2 /\ rb_head rb' = 2 /\ rb_tail rb' = 0 /\
  rb_contents rb' = [chars "old"; chars "new"].
Proof.
  cbv zeta.
  destruct (RB_Push_appends one_buffered (chars "new") 3)
    as (Hret & _ & Hcount & Htail & Hhead & Hcontents).
  - apply one_buffered_wf.
  - vm_compute. reflexivity.
  - lia.
  - vm_compute. discriminate.
  - repeat split; assumption.
Defined.

(** X2. [RB_Pop] on a buffer that holds the records [r :: q] returns 0,
    sets [*length] to the length of the oldest record [r] and copies [r] to
    the front of the caller's array, leaving the rest of that array as it
    was; the queue becomes [q], [count] drops by one, and neither [head]
    nor the slots change. *)
Theorem RB_Pop_takes_oldest (rb : RP_LogRingBuffer_t) (data : list ascii)
    (length : Z) (r : list ascii) (q : list (list ascii)) :
  rb_inv rb -> rb_slots_wf rb -> rb_contents rb = r :: q ->
  let p := RB_Pop rb data length in
  pop_ret p = 0 /\
  pop_length p = Z.of_nat (List.length r) /\
  take (Z.to_nat (pop_length p)) (pop_data p) = r /\
  drop (Z.to_nat (pop_length p)) (pop_data p) = drop (Z.to_nat (pop_length p)) data /\
  rb_contents (pop_rb p) = q /\
  rb_count (pop_rb p) = rb_count rb - 1 /\
  rb_head (pop_rb p) = rb_head rb /\
  rb_entries (pop_rb p) = rb_entries rb.
Proof.
  intros Hinv Hwf Hq p.
  pose proof (rb_contents_some rb r q Hq) as Hsome.
  destruct (pop_then_push rb data length r q Hinv Hwf Hq)
    as (Hret & Hr & Hrest & _).
  destruct (RB_Pop_some rb data length Hinv Hwf Hsome) as (_ & Hcount & _ & _).
  fold p in Hret, Hr, Hrest, Hcount.
  pose proof (entry_at_wf rb (rb_tail rb) Hinv Hwf (inv_tail rb Hinv))
    as [Hdata Hlen].
  assert (Hp : p = {| pop_ret := 0;
                      pop_rb := pop_rb p;
                      pop_data := memcpy data (e_data (entry_at rb (rb_tail rb)))
                                         (e_length (entry_at rb (rb_tail rb)));
                      pop_length := e_length (entry_at rb (rb_tail rb)) |}).
  { unfold p, RB_Pop, RB_IsEmpty.
    destruct (Z.eqb_spec (rb_count rb) 0); [contradiction | reflexivity]. }
  assert (Hlength : pop_length p = e_length (entry_at rb (rb_tail rb)))
    by (rewrite Hp; reflexivity).
  assert (Hpdata : pop_data p = memcpy data (e_data (entry_at rb (rb_tail rb)))
                                       (pop_length p))
    by (rewrite Hlength, Hp; reflexivity).
  split; [exact Hret |]. split.
  { rewrite <- Hr, length_take, Hpdata.
    unfold memcpy. rewrite length_app, length_take. lia. }
  split; [exact Hr |]. split.
  { rewrite Hpdata at 1. unfold memcpy.
    rewrite drop_app_length'; [reflexivity |]. rewrite length_take. lia. }
  split; [exact Hrest |]. split; [exact Hcount |].
  unfold p, RB_Pop, RB_IsEmpty.
  destruct (Z.eqb_spec (rb_count rb) 0); [contradiction |]. split; reflexivity.
Qed.

Lemma RB_Pop_takes_oldest_witness :
  let p := RB_Pop one_buffered stack_garbage 0 in
  pop_ret p = 0 /\ pop_length p = 3 /\
  take 3 (pop_data p) = chars "old" /\
  drop 3 (pop_data p) = drop 3 stack_garbage /\
  rb_contents (pop_rb p) = [].
Proof.
  cbv zeta.
  destruct (RB_Pop_takes_oldest one_buffered stack_garbage 0 (chars "old") [])
    as (Hret & Hlen & Htake & Hdrop & Hrest & _).
  - apply one_buffered_wf.
  - apply one_buffered_wf.
  - vm_compute. reflexivity.
  - assert (Hthree : pop_length (RB_Pop one_buffered stack_garbage 0) = 3)
      by exact Hlen.
    rewrite Hthree in Htake, Hdrop.
    repeat split; assumption.
Defined.

Lemma rb_contents_empty (rb : RP_LogRingBuffer_t) :
  rb_count rb = 0 -> rb_contents rb = [].
Proof. intros Hzero. unfold rb_contents. rewrite Hzero. reflexivity. Qed.

Lemma pop_many_inv (n : nat) (rb : RP_LogRingBuffer_t) (data : list ascii)
    (length : Z) :
  rb_inv rb -> rb_slots_wf rb ->
  rb_inv (snd (pop_many n rb data length)) /\
  rb_slots_wf (snd (pop_many n rb data length)).
Proof.
  revert rb data length.
  induction n as [| n IH]; intros rb data length Hinv Hwf; [split; assumption |].
  cbn [pop_many].
  specialize (IH (pop_rb (RB_Pop rb data length))
                 (pop_data (RB_Pop rb data length))
                 (pop_length (RB_Pop rb data length))
                 (RB_Pop_inv rb data length Hinv)
                 (RB_Pop_slots_wf rb data length Hwf)).
  destruct (pop_many n _ _ _) as [rest rb']. exact IH.
Qed.

(** X3. Round trip: on an empty buffer, [RB_Push] of [length] bytes followed
    at once by [RB_Pop] returns 0 twice and gives back those bytes (the first
    [RP_LOG_ENTRY_MAX_SIZE] of them when [length] is larger) with their
    length, and the buffer is empty again. *)
Theorem RB_Push_Pop_round_trip (rb : RP_LogRingBuffer_t) (data : list ascii)
    (length : Z) (out : list ascii) (out_length : Z) :
  rb_inv rb -> rb_slots_wf rb -> rb_count rb = 0 ->
  0 <= length ->
  Z.min length RP_LOG_ENTRY_MAX_SIZE <= Z.of_nat (List.length data) ->
  let p := RB_Pop (snd (RB_Push rb data length)) out out_length in
  fst (RB_Push rb data length) = 0 /\
  pop_ret p = 0 /\
  pop_length p = Z.min length RP_LOG_ENTRY_MAX_SIZE /\
  take (Z.to_nat (pop_length p)) (pop_data p) = take (Z.to_nat (pop_length p)) data /\
  rb_count (pop_rb p) = 0 /\
  rb_contents (pop_rb p) = [].
Proof.
  intros Hinv Hwf Hempty Hpos Hdata p.
  assert (Hrec : record_wf data (Z.min length RP_LOG_ENTRY_MAX_SIZE)).
  { split; [consts; lia | exact Hdata]. }
  assert (Hroom : rb_count rb < RP_LOG_RING_BUFFER_CNT) by (consts; lia).
  pose proof (RB_Push_inv rb data length Hinv) as Hinv'.
  assert (Hwf' : rb_slots_wf (snd (RB_Push rb data length))).
  { rewrite RB_Push_clamp. apply RB_Push_slots_wf; assumption. }
  assert (Hpush : fst (RB_Push rb data length) = 0 /\
                  rb_count (snd (RB_Push rb data length)) = 1 /\
                  rb_contents (snd (RB_Push rb data length)) =
                  [take (Z.to_nat (Z.min length RP_LOG_ENTRY_MAX_SIZE)) data]).
  { rewrite RB_Push_clamp.
    destruct (RB_Push_room rb data _ Hinv Hroom Hrec) as (Hret & Hcount & Hq).
    rewrite Hempty in Hcount. rewrite (rb_contents_empty rb Hempty) in Hq.
    repeat split; assumption. }
  destruct Hpush as (Hret & Hone & Hq).
  destruct (pop_then_push _ out out_length _ _ Hinv' Hwf' Hq)
    as (Hpop & Hr & Hrest & _).
  destruct (RB_Pop_some _ out out_length Hinv' Hwf' ltac:(lia))
    as (_ & Hcount & _ & Hprec).
  fold p in Hpop, Hr, Hrest, Hcount, Hprec.
  assert (Hlen : pop_length p = Z.min length RP_LOG_ENTRY_MAX_SIZE).
  { apply (f_equal (@List.length ascii)) in Hr.
    rewrite !length_take in Hr. destruct Hprec as [Hbound Hholds]. lia. }
  split; [exact Hret |]. split; [exact Hpop |]. split; [exact Hlen |].
  split; [rewrite Hr, Hlen; reflexivity |].
  split; [lia | exact Hrest].
Qed.

Lemma RB_Push_Pop_round_trip_witness :
  let p := RB_Pop (snd (RB_Push zero_ring_buffer (chars "record") 6))
                  stack_garbage 0 in
  pop_ret p = 0 /\ pop_length p = 6 /\
  take (Z.to_nat (pop_length p)) (pop_data p)
  = take (Z.to_nat (pop_length p)) (chars "record") /\
  rb_count (pop_rb p) = 0.
Proof.
  cbv zeta.
  destruct (RB_Push_Pop_round_trip zero_ring_buffer (chars "record") 6
              stack_garbage 0)
    as (_ & Hret & Hlen & Hbytes & Hcount & _).
  - apply rb_inv_zero.
  - apply rb_slots_wf_zero.
  - reflexivity.
  - lia.
  - vm_compute. discriminate.
  - repeat split; assumption.
Defined.

(** X4. Draining: [count] successive [RB_Pop] calls return 0 and hand out
    every buffered record, oldest first; after them [count] is 0 and one
    more [RB_Pop] returns -1 and changes nothing. *)
Theorem RB_Pop_drains (rb : RP_LogRingBuffer_t) (data : list ascii) (length : Z) :
  rb_inv rb -> rb_slots_wf rb ->
  let drained := pop_many (Z.to_nat (rb_count rb)) rb data length in
  fst drained = map (pair 0) (rb_contents rb) /\
  rb_count (snd drained) = 0 /\
  forall (data' : list ascii) (length' : Z),
    RB_Pop (snd drained) data' length' =
    {| pop_ret := -1; pop_rb := snd drained;
       pop_data := data'; pop_length := length' |}.
Proof.
  intros Hinv Hwf drained.
  pose proof (inv_count rb Hinv) as Hc.
  pose proof (rb_contents_length rb (proj1 Hc)) as Hlen.
  destruct (pop_many_prefix (Z.to_nat (rb_count rb)) rb data length Hinv Hwf
              ltac:(lia)) as [Hobs Hrest].
  destruct (pop_many_inv (Z.to_nat (rb_count rb)) rb data length Hinv Hwf)
    as [Hinv' _].
  fold drained in Hobs, Hrest, Hinv'.
  assert (Hzero : rb_count (snd drained) = 0).
  { pose proof (rb_contents_length _ (proj1 (inv_count _ Hinv'))) as Hlen'.
    rewrite Hrest, length_drop in Hlen'. lia. }
  split; [| split; [exact Hzero |]].
  - rewrite Hobs, take_ge by lia. reflexivity.
  - intros data' length'. apply RB_Pop_empty, Hzero.
Qed.

Lemma RB_Pop_drains_witness :
  let rb := snd (RB_Push one_buffered (chars "new") 3) in
  fst (pop_many 2 rb stack_garbage 0) = [(0, chars "old"); (0, chars "new")] /\
  rb_count (snd (pop_many 2 rb stack_garbage 0)) = 0.
Proof.
  cbv zeta.
  destruct (RB_Pop_drains (snd (RB_Push one_buffered (chars "new") 3))
              stack_garbage 0) as (Hobs & Hzero & _).
  - apply RB_Push_inv, one_buffered_wf.
  - apply RB_Push_slots_wf; [apply one_buffered_wf | apply one_buffered_wf |].
    split; cbn; consts; lia.
  - split; [exact Hobs | exact Hzero].
Defined.

(** X5. After any sequence of [RB_Push] and [RB_Pop] calls on the zeroed
    ring buffer, [head] is [tail + count] modulo the capacity, the array
    still has [RP_LOG_RING_BUFFER_CNT] slots, the queue holds [count]
    records, and [head == tail] exactly when the buffer is empty or full. *)
Theorem rb_run_head_follows_tail (calls : list rb_call) :
  let rb := rb_run calls zero_ring_buffer in
  rb_head rb = (rb_tail rb + rb_count rb) mod RP_LOG_RING_BUFFER_CNT /\
  Z.of_nat (List.length (rb_entries rb)) = RP_LOG_RING_BUFFER_CNT /\
  Z.of_nat (List.length (rb_contents rb)) = rb_count rb /\
  (rb_head rb = rb_tail rb <->
   rb_count rb = 0 \/ rb_count rb = RP_LOG_RING_BUFFER_CNT).
Proof.
  intros rb.
  assert (Hinv : rb_inv rb) by apply rb_run_inv, rb_inv_zero.
  destruct Hinv as [Hc Ht Hh Hs].
  split; [exact Hh |]. split; [exact Hs |].
  split; [apply rb_contents_length; lia |].
  rewrite Hh. consts. split.
  - intros Heq.
    destruct (Z.eq_dec (rb_count rb) 16) as [Hfull | Hnot]; [right; exact Hfull |].
    left. replace (rb_tail rb) with ((rb_tail rb + 0) mod 16) in Heq at 2
      by (rewrite Z.add_0_r; apply Z.mod_small; lia).
    apply (slot_index_inj (rb_tail rb)) in Heq; consts; lia.
  - intros [Hzero | Hfull].
    + rewrite Hzero, Z.add_0_r. apply Z.mod_small. lia.
    + rewrite Hfull. rewrite <- Zplus_mod_idemp_r.
      change (16 mod 16) with 0. rewrite Z.add_0_r. apply Z.mod_small. lia.
Qed.

(* ================================================================= *)
(** * Further properties of the facility *)

Lemma terminated_ok (text : list ascii) : record_ok (terminated text).
Proof.
  pose proof (terminated_length text) as Hlen.
  assert (Hkept : 0 <= kept_length (Z.of_nat (length text)) <= RP_LOG_ENTRY_MAX_SIZE - 3 /\
                  kept_length (Z.of_nat (length text)) <= Z.of_nat (length text)).
  { unfold kept_length. consts.
    destruct (Z.leb_spec (256 - 2) (Z.of_nat (length text))); lia. }
  split; [| consts; lia].
  unfold ends_with_crlf.
  replace (length (terminated text) - 2)%nat
    with (Z.to_nat (kept_length (Z.of_nat (length text)))) by lia.
  unfold terminated. rewrite drop_app_length'; [reflexivity |].
  rewrite length_take. lia.
Qed.

(** What a call of [RP_Log_Write] that is defined does. *)
Lemma RP_Log_Write_cases `{Host} (w w' : World) (log : RP_Log_ptr)
    (level : RP_LogLevel_t) (file : string) (line : Z) (message : string)
    (tick : N) (buffer : list ascii) (ret : Z) :
  world_inv w ->
  Z.of_nat (length buffer) = RP_LOG_ENTRY_MAX_SIZE ->
  RP_Log_Write log level file line message tick buffer w = Some (ret, w') ->
  (ret = -1 /\ w' = w /\
   (log = NULL \/
    level_filtered (output_range (config_param (g_rp_log w))) level = true \/
    RP_LOG_RING_BUFFER_CNT <= rb_count (ring_buffer (g_rp_log w)))) \/
  (ret = 0 /\ log = ADDR_g_rp_log /\
   level_filtered (output_range (config_param (g_rp_log w))) level = false /\
   rb_count (ring_buffer (g_rp_log w)) < RP_LOG_RING_BUFFER_CNT /\
   exists rb',
     w' = set_ring_buffer w rb' /\
     rb_count rb' = rb_count (ring_buffer (g_rp_log w)) + 1 /\
     rb_contents rb' =
     rb_contents (ring_buffer (g_rp_log w))
       ++ [terminated (log_text (config_param (g_rp_log w)) level file line
                                message tick)]).
Proof.
  intros Hw Hbuf Hwrite.
  destruct log.
  { inversion Hwrite; subst. left. auto. }
  destruct (level_filtered (output_range (config_param (g_rp_log w))) level)
    eqn:Hpass.
  { rewrite RP_Log_Write_filtered in Hwrite by exact Hpass.
    inversion Hwrite; subst. left. auto. }
  destruct (Z_le_gt_dec
              (strlen (log_prefix (config_param (g_rp_log w)) level file line tick))
              RP_LOG_ENTRY_MAX_SIZE) as [Hfit | Hover];
    [| rewrite RP_Log_Write_overflow in Hwrite by (assumption || lia);
       discriminate].
  destruct (Z_lt_le_dec (rb_count (ring_buffer (g_rp_log w)))
                        RP_LOG_RING_BUFFER_CNT) as [Hroom | Hfull].
  - destruct (RP_Log_Write_accepted w level file line message tick buffer
                Hw Hpass Hbuf Hfit Hroom)
      as (rb' & Hret & Hcount & Hcontents & _).
    rewrite Hret in Hwrite. inversion Hwrite; subst.
    right. repeat (split; [first [reflexivity | assumption] |]).
    exists rb'. auto.
  - rewrite RP_Log_Write_full in Hwrite by assumption.
    inversion Hwrite; subst. left. auto.
Qed.

(** What [RP_Log_Work] does to the queue and the transport. *)
Lemma RP_Log_Work_queue `{Host} (w : World) (buffer : list ascii) (length : Z) :
  world_inv w ->
  match rb_contents (ring_buffer (g_rp_log w)) with
  | [] => RP_Log_Work ADDR_g_rp_log buffer length w = w
  | r :: q =>
      let p := RB_Pop (ring_buffer (g_rp_log w)) buffer length in
      let sent := RP_Log_Transmit (pop_data p) (pop_length p) (wire w) in
      let w' := RP_Log_Work ADDR_g_rp_log buffer length w in
      take (Z.to_nat (pop_length p)) (pop_data p) = r /\
      wire w' = snd sent /\
      config_param (g_rp_log w') = config_param (g_rp_log w) /\
      rb_contents (ring_buffer (g_rp_log w')) =
      (if fst sent =? 0 then q else q ++ [r]) /\
      rb_count (ring_buffer (g_rp_log w')) =
      (if fst sent =? 0 then rb_count (ring_buffer (g_rp_log w)) - 1
       else rb_count (ring_buffer (g_rp_log w)))
  end.
Proof.
  intros [Hinv Hwf].
  destruct (rb_contents (ring_buffer (g_rp_log w))) as [| r q] eqn:Hq.
  - assert (Hzero : rb_count (ring_buffer (g_rp_log w)) = 0).
    { pose proof (rb_contents_length _ (proj1 (inv_count _ Hinv))) as Hlen.
      rewrite Hq in Hlen. cbn in Hlen. lia. }
    unfold RP_Log_Work. rewrite RB_Pop_empty by exact Hzero.
    cbn. apply set_ring_buffer_same.
  - cbv zeta.
    pose proof (rb_contents_some _ r q Hq) as Hsome.
    destruct (pop_then_push _ buffer length r q Hinv Hwf Hq)
      as (_ & Hr & Hrest & _ & Hcount & Hcontents).
    destruct (RB_Pop_some _ buffer length Hinv Hwf Hsome) as (_ & Hpopped & _).
    rewrite RP_Log_Work_some by exact Hsome. cbn [wire g_rp_log config_param ring_buffer].
    split; [exact Hr |]. split; [reflexivity |]. split; [reflexivity |].
    destruct (fst (RP_Log_Transmit _ _ _) =? 0); cbn [negb];
      split; assumption.
Qed.

(** X6. In every state of a sequential run of write, work and flush (with
    the configuration changed at will in between), get_count() is between 0
    and [RP_LOG_RING_BUFFER_CNT] and is the number of buffered records,
    [head] is [tail + count] modulo the capacity, and every slot is a whole
    [data] array with a [length] inside it. *)
Theorem sequential_run_keeps_invariant `{Host} (w : World) :
  reachable w ->
  let rb := ring_buffer (g_rp_log w) in
  0 <= RP_Log_GetCount ADDR_g_rp_log w <= RP_LOG_RING_BUFFER_CNT /\
  RP_Log_GetCount ADDR_g_rp_log w = Z.of_nat (length (rb_contents rb)) /\
  0 <= rb_tail rb < RP_LOG_RING_BUFFER_CNT /\
  rb_head rb = (rb_tail rb + rb_count rb) mod RP_LOG_RING_BUFFER_CNT /\
  Forall entry_wf (rb_entries rb).
Proof.
  intros Hreach rb.
  destruct (reachable_inv w Hreach) as [[Hc Ht Hh Hs] Hwf].
  split; [exact Hc |].
  split; [symmetry; apply rb_contents_length; apply Hc |].
  split; [exact Ht |]. split; [exact Hh | exact Hwf].
Qed.

Lemma sequential_run_keeps_invariant_witness :
  RP_Log_GetCount ADDR_g_rp_log two_buffered = 2 /\
  rb_head (ring_buffer (g_rp_log two_buffered)) = 2 /\
  rb_tail (ring_buffer (g_rp_log two_buffered)) = 0.
Proof.
  destruct (sequential_run_keeps_invariant (H := uart_host) two_buffered
              reachable_two_buffered) as (_ & Hcount & _ & Hhead & _).
  split; [rewrite Hcount; vm_compute; reflexivity |].
  split; [rewrite Hhead |]; vm_compute; reflexivity.
Defined.

Lemma reachable_records_ok `{Host} (w : World) :
  reachable w -> Forall record_ok (rb_contents (ring_buffer (g_rp_log w))).
Proof.
  induction 1 as [s | w cfg _ IH | w w' log level file line message tick
                                    buffer ret Hreach IH Hbuf Hw
                  | w log buffer length Hreach IH | w log _ IH].
  - constructor.
  - exact IH.
  - destruct (RP_Log_Write_cases w w' log level file line message tick buffer
                ret (reachable_inv w Hreach) Hbuf Hw)
      as [(_ & Hsame & _) | (_ & _ & _ & _ & rb' & Hw' & _ & Hcontents)].
    + subst w'. exact IH.
    + subst w'. cbn [set_ring_buffer g_rp_log ring_buffer].
      rewrite Hcontents. apply Forall_app. split; [exact IH |].
      constructor; [apply terminated_ok | constructor].
  - destruct log; [exact IH |].
    pose proof (RP_Log_Work_queue w buffer length (reachable_inv w Hreach))
      as Hwork.
    destruct (rb_contents (ring_buffer (g_rp_log w))) as [| r q] eqn:Hq.
    + rewrite Hwork, Hq. constructor.
    + cbv zeta in Hwork. destruct Hwork as (_ & _ & _ & Hcontents & _).
      rewrite Hcontents. inversion IH as [| r' q' Hr Hrest]; subst.
      destruct (fst _ =? 0); [exact Hrest |].
      apply Forall_app. split; [exact Hrest |]. constructor; [exact Hr | constructor].
  - destruct log; [exact IH |]. constructor.
Qed.

(** X7. In every state of a sequential run, each buffered record ends with
    CR LF and is between 2 and [RP_LOG_ENTRY_MAX_SIZE - 1] bytes long, and so
    is every record that work() hands to the transport. *)
Theorem buffered_records_are_terminated `{Host} (w : World) :
  reachable w ->
  Forall record_ok (rb_contents (ring_buffer (g_rp_log w))) /\
  forall (buffer : list ascii) (length : Z),
    let p := RB_Pop (ring_buffer (g_rp_log w)) buffer length in
    pop_ret p = 0 ->
    record_ok (take (Z.to_nat (pop_length p)) (pop_data p)).
Proof.
  intros Hreach. pose proof (reachable_records_ok w Hreach) as Hok.
  split; [exact Hok |].
  intros buffer length p Hret.
  destruct (reachable_inv w Hreach) as [Hinv Hwf].
  assert (Hsome : rb_count (ring_buffer (g_rp_log w)) <> 0).
  { intros Hzero. unfold p in Hret. rewrite RB_Pop_empty in Hret by exact Hzero.
    discriminate. }
  destruct (RB_Pop_some _ buffer length Hinv Hwf Hsome) as (_ & _ & Hq & _).
  fold p in Hq. rewrite Hq in Hok. inversion Hok; assumption.
Qed.

Lemma buffered_records_are_terminated_witness :
  Forall record_ok (rb_contents (ring_buffer (g_rp_log two_buffered))).
Proof.
  apply (buffered_records_are_terminated (H := uart_host) two_buffered).
  apply reachable_two_buffered.
Defined.

(** X8. A call of write that is defined returns 0 or -1.  It returns 0
    exactly when the pointer is not null, the level passes the filter and
    the buffer has room; then the terminated text is appended to the queue,
    get_count() grows by one, and the configuration and the transport are
    untouched.  When it returns -1 (null pointer, filtered level, or full
    buffer) nothing at all has changed. *)
Theorem RP_Log_Write_outcome `{Host} (w w' : World) (log : RP_Log_ptr)
    (level : RP_LogLevel_t) (file : string) (line : Z) (message : string)
    (tick : N) (buffer : list ascii) (ret : Z) :
  reachable w ->
  Z.of_nat (length buffer) = RP_LOG_ENTRY_MAX_SIZE ->
  RP_Log_Write log level file line message tick buffer w = Some (ret, w') ->
  (ret = 0 \/ ret = -1) /\
  (ret = 0 <->
   log = ADDR_g_rp_log /\
   level_filtered (output_range (config_param (g_rp_log w))) level = false /\
   RP_Log_GetCount ADDR_g_rp_log w < RP_LOG_RING_BUFFER_CNT) /\
  (ret = -1 -> w' = w) /\
  (ret = 0 ->
   config_param (g_rp_log w') = config_param (g_rp_log w) /\
   wire w' = wire w /\
   RP_Log_GetCount ADDR_g_rp_log w' = RP_Log_GetCount ADDR_g_rp_log w + 1 /\
   rb_contents (ring_buffer (g_rp_log w')) =
   rb_contents (ring_buffer (g_rp_log w))
     ++ [terminated (log_text (config_param (g_rp_log w)) level file line
                              message tick)]).
Proof.
  intros Hreach Hbuf Hwrite.
  destruct (RP_Log_Write_cases w w' log level file line message tick buffer ret
              (reachable_inv w Hreach) Hbuf Hwrite)
    as [(Hret & Hsame & Hwhy) | (Hret & Hlog & Hpass & Hroom & rb' & Hw' & Hcount & Hq)].
  - subst ret w'. split; [right; reflexivity |]. split; [| split].
    + split; [discriminate |]. intros (Hlog & Hpass & Hroom).
      cbn [RP_Log_GetCount] in Hroom.
      destruct Hwhy as [Hnull | [Hfiltered | Hfull]]; [congruence | congruence | lia].
    + reflexivity.
    + discriminate.
  - subst ret w'. split; [left; reflexivity |]. split; [| split].
    + split; [intros _; auto | reflexivity].
    + discriminate.
    + intros _. cbn [set_ring_buffer g_rp_log ring_buffer config_param wire
                     RP_Log_GetCount]. auto.
Qed.

Lemma RP_Log_Write_outcome_witness :
  let w := boot uart_host idle_uart in
  let w' := logged (H := uart_host) "first" w in
  RP_Log_GetCount ADDR_g_rp_log w' = 1 /\
  rb_contents (ring_buffer (g_rp_log w'))
  = [chars "[1234] [INFO ][main.c:45]: first" ++ [CR; LF]].
Proof.
  cbv zeta.
  destruct (RP_Log_Write_outcome (H := uart_host) (boot uart_host idle_uart)
              (logged (H := uart_host) "first" (boot uart_host idle_uart))
              ADDR_g_rp_log RP_LOG_LEVEL_INFO "main.c" 45 "first" 1234
              stack_garbage 0)
    as (_ & _ & _ & Hzero).
  - apply (reach_init (H := uart_host)).
  - reflexivity.
  - vm_compute. reflexivity.
  - destruct (Hzero eq_refl) as (_ & _ & Hcount & Hq).
    split; [exact Hcount | exact Hq].
Defined.

Lemma RB_Push_ext (rb : RP_LogRingBuffer_t) (d1 d2 : list ascii) (n : Z) :
  n <= RP_LOG_ENTRY_MAX_SIZE ->
  take (Z.to_nat n) d1 = take (Z.to_nat n) d2 ->
  RB_Push rb d1 n = RB_Push rb d2 n.
Proof.
  intros Hn Heq. unfold RB_Push. destruct (RB_IsFull rb); [reflexivity |].
  destruct (Z.ltb_spec RP_LOG_ENTRY_MAX_SIZE n); [lia |].
  unfold memcpy. rewrite Heq. reflexivity.
Qed.

(** X9. The outcome of write does not depend on what the uninitialised
    local array held: with any two contents of that array, the return
    value and the whole state afterwards are the same (and the call is
    undefined for the one exactly when it is for the other). *)
Theorem RP_Log_Write_ignores_stack `{Host} (w : World) (log : RP_Log_ptr)
    (level : RP_LogLevel_t) (file : string) (line : Z) (message : string)
    (tick : N) (buffer1 buffer2 : list ascii) :
  Z.of_nat (length buffer1) = RP_LOG_ENTRY_MAX_SIZE ->
  Z.of_nat (length buffer2) = RP_LOG_ENTRY_MAX_SIZE ->
  RP_Log_Write log level file line message tick buffer1 w =
  RP_Log_Write log level file line message tick buffer2 w.
Proof.
  intros Hb1 Hb2. destruct log; [reflexivity |].
  destruct (level_filtered (output_range (config_param (g_rp_log w))) level)
    eqn:Hpass.
  { rewrite !RP_Log_Write_filtered by exact Hpass. reflexivity. }
  destruct (Z_le_gt_dec
              (strlen (log_prefix (config_param (g_rp_log w)) level file line tick))
              RP_LOG_ENTRY_MAX_SIZE) as [Hfit | Hover];
    [| rewrite !RP_Log_Write_overflow by (assumption || lia); reflexivity].
  rewrite !RP_Log_Write_renders by assumption. cbv zeta.
  set (text := log_text _ _ _ _ _ _).
  destruct (terminated_in_buffer buffer1 text Hb1) as [Htake1 Hrec1].
  destruct (terminated_in_buffer buffer2 text Hb2) as [Htake2 _].
  cbv zeta in Htake1, Htake2, Hrec1.
  set (len := kept_length (Z.of_nat (length text))) in *.
  assert (Hlen : 0 <= len + 1 + 1 <= RP_LOG_ENTRY_MAX_SIZE) by apply Hrec1.
  rewrite uint16_small by (consts; lia).
  rewrite (RB_Push_ext _ _ (store (store (written buffer2 text) len CR) (len + 1) LF))
    by (lia || congruence).
  reflexivity.
Qed.

Lemma RP_Log_Write_ignores_stack_witness :
  RP_Log_Write (H := uart_host) ADDR_g_rp_log RP_LOG_LEVEL_INFO "main.c" 45
               "first" 1234 stack_garbage (boot uart_host idle_uart) =
  RP_Log_Write (H := uart_host) ADDR_g_rp_log RP_LOG_LEVEL_INFO "main.c" 45
               "first" 1234 (replicate 256 zero) (boot uart_host idle_uart).
Proof.
  apply (RP_Log_Write_ignores_stack (H := uart_host)); reflexivity.
Defined.

(** X10. write is undefined exactly when the pointer is not null, the level
    passes the filter, and the prefix rendered before the message (tick
    segment, level, file name and line) is longer than
    [RP_LOG_ENTRY_MAX_SIZE]: the size handed to the next [snprintf] call is
    then negative.  In every other case the call returns. *)
Theorem RP_Log_Write_undefined_iff `{Host} (w : World) (log : RP_Log_ptr)
    (level : RP_LogLevel_t) (file : string) (line : Z) (message : string)
    (tick : N) (buffer : list ascii) :
  RP_Log_Write log level file line message tick buffer w = None <->
  log = ADDR_g_rp_log /\
  level_filtered (output_range (config_param (g_rp_log w))) level = false /\
  RP_LOG_ENTRY_MAX_SIZE
    < strlen (log_prefix (config_param (g_rp_log w)) level file line tick).
Proof.
  split.
  - intros Hnone. destruct log; [discriminate |].
    destruct (level_filtered (output_range (config_param (g_rp_log w))) level)
      eqn:Hpass.
    { rewrite RP_Log_Write_filtered in Hnone by exact Hpass. discriminate. }
    destruct (Z_le_gt_dec
                (strlen (log_prefix (config_param (g_rp_log w)) level file line tick))
                RP_LOG_ENTRY_MAX_SIZE) as [Hfit | Hover].
    + rewrite RP_Log_Write_renders in Hnone by assumption. cbv zeta in Hnone.
      destruct (RB_Push _ _ _). discriminate.
    + split; [reflexivity |]. split; [reflexivity | lia].
  - intros (Hlog & Hpass & Hover). subst log.
    apply RP_Log_Write_overflow; assumption.
Qed.

(** X11. When the buffer holds the records [r :: q] and the transport
    accepts the record, work() hands it [r], the oldest record, with its
    length; afterwards the queue is [q], get_count() is one less, and the
    configuration is as before. *)
Theorem RP_Log_Work_sends_oldest `{Host} (w : World) (buffer : list ascii)
    (length : Z) (r : list ascii) (q : list (list ascii)) :
  reachable w ->
  rb_contents (ring_buffer (g_rp_log w)) = r :: q ->
  let p := RB_Pop (ring_buffer (g_rp_log w)) buffer length in
  fst (RP_Log_Transmit (pop_data p) (pop_length p) (wire w)) = 0 ->
  let w' := RP_Log_Work ADDR_g_rp_log buffer length w in
  take (Z.to_nat (pop_length p)) (pop_data p) = r /\
  pop_length p = Z.of_nat (List.length r) /\
  wire w' = snd (RP_Log_Transmit (pop_data p) (pop_length p) (wire w)) /\
  rb_contents (ring_buffer (g_rp_log w')) = q /\
  RP_Log_GetCount ADDR_g_rp_log w' = RP_Log_GetCount ADDR_g_rp_log w - 1 /\
  config_param (g_rp_log w') = config_param (g_rp_log w).
Proof.
  intros Hreach Hq p Hsent w'.
  pose proof (reachable_inv w Hreach) as Hw.
  pose proof (RP_Log_Work_queue w buffer length Hw) as Hwork.
  rewrite Hq in Hwork. cbv zeta in Hwork. fold p in Hwork. fold w' in Hwork.
  rewrite Hsent in Hwork. cbn [Z.eqb] in Hwork.
  destruct Hwork as (Hr & Hwire & Hcfg & Hcontents & Hcount).
  destruct Hw as [Hinv Hwf].
  pose proof (entry_at_wf _ (rb_tail (ring_buffer (g_rp_log w))) Hinv Hwf
                (inv_tail _ Hinv)) as [Hdata Hlen].
  split; [exact Hr |]. split.
  { assert (Hp : pop_length p = e_length (entry_at (ring_buffer (g_rp_log w))
                                            (rb_tail (ring_buffer (g_rp_log w))))).
    { unfold p, RB_Pop, RB_IsEmpty.
      destruct (Z.eqb_spec (rb_count (ring_buffer (g_rp_log w))) 0) as [Hz | _];
        [| reflexivity].
      exfalso. apply (rb_contents_some _ r q Hq), Hz. }
    destruct (RB_Pop_some _ buffer length Hinv Hwf (rb_contents_some _ r q Hq))
      as (_ & _ & _ & [Hbound Hholds]).
    fold p in Hbound, Hholds.
    rewrite <- Hr, length_take. lia. }
  repeat (split; [assumption |]). exact Hcfg.
Qed.

Lemma RP_Log_Work_sends_oldest_witness :
  let w := logged (H := uart_host) "first"
             (boot uart_host {| uart_script := [0]; uart_sent := [] |}) in
  let w' := RP_Log_Work (H := uart_host) ADDR_g_rp_log stack_garbage 0 w in
  uart_sent (wire w') = [chars "[1234] [INFO ][main.c:45]: first" ++ [CR; LF]] /\
  rb_contents (ring_buffer (g_rp_log w')) = [] /\
  RP_Log_GetCount ADDR_g_rp_log w' = 0.
Proof.
  cbv zeta.
  destruct (RP_Log_Work_sends_oldest (H := uart_host)
              (logged (H := uart_host) "first"
                 (boot uart_host {| uart_script := [0]; uart_sent := [] |}))
              stack_garbage 0
              (chars "[1234] [INFO ][main.c:45]: first" ++ [CR; LF]) [])
    as (_ & _ & Hwire & Hq & Hcount & _).
  - apply (reachable_logged (H := uart_host)), (reach_init (H := uart_host)).
  - vm_compute. reflexivity.
  - vm_compute. reflexivity.
  - split; [rewrite Hwire; vm_compute; reflexivity |].
    split; [exact Hq | exact Hcount].
Defined.

(** X12. On an empty buffer work() does nothing: the state is unchanged and
    the transport is not called. *)
Theorem RP_Log_Work_empty `{Host} (w : World) (log : RP_Log_ptr)
    (buffer : list ascii) (length : Z) :
  RP_Log_GetCount ADDR_g_rp_log w = 0 ->
  RP_Log_Work log buffer length w = w.
Proof.
  intros Hzero. destruct log; [reflexivity |].
  cbn [RP_Log_GetCount] in Hzero.
  unfold RP_Log_Work. rewrite RB_Pop_empty by exact Hzero.
  cbn. apply set_ring_buffer_same.
Qed.

Lemma RP_Log_Work_empty_witness :
  RP_Log_Work (H := uart_host) ADDR_g_rp_log stack_garbage 0
              (boot uart_host {| uart_script := [0]; uart_sent := [] |})
  = boot uart_host {| uart_script := [0]; uart_sent := [] |}.
Proof.
  apply (RP_Log_Work_empty (H := uart_host)). reflexivity.
Defined.

(** X13. With the source's own weak [RP_Log_Transmit], which returns -1,
    work() never drains the buffer: after any number of calls get_count()
    is what it was and the buffer holds the same records (in rotated
    order), so none is ever sent and none is lost. *)
Theorem weak_transmit_never_drains (w : @World weak_host) (n : nat)
    (buffer : list ascii) (length : Z) :
  reachable (H := weak_host) w ->
  let w' := Nat.iter n (RP_Log_Work (H := weak_host) ADDR_g_rp_log buffer length) w in
  reachable (H := weak_host) w' /\
  RP_Log_GetCount (H := weak_host) ADDR_g_rp_log w'
  = RP_Log_GetCount (H := weak_host) ADDR_g_rp_log w /\
  Permutation (rb_contents (ring_buffer (g_rp_log w')))
              (rb_contents (ring_buffer (g_rp_log w))).
Proof.
  intros Hreach. cbv zeta. induction n as [| n IH].
  - split; [exact Hreach |]. split; reflexivity.
  - rewrite !Nat.iter_succ. destruct IH as (Hreach' & Hcount & Hperm).
    set (w1 := Nat.iter n (RP_Log_Work (H := weak_host) ADDR_g_rp_log buffer length) w) in *.
    split; [apply (reach_work (H := weak_host)), Hreach' |].
    pose proof (RP_Log_Work_queue (H := weak_host) w1 buffer length
                  (reachable_inv (H := weak_host) w1 Hreach')) as Hwork.
    destruct (rb_contents (ring_buffer (g_rp_log w1))) as [| r q] eqn:Hq.
    + rewrite Hwork. split; [exact Hcount |]. rewrite Hq. exact Hperm.
    + cbv zeta in Hwork. destruct Hwork as (_ & _ & _ & Hcontents & Hcount').
      cbn [RP_Log_Transmit weak_host weak_transmit fst Z.eqb] in Hcontents, Hcount'.
      split; [cbn [RP_Log_GetCount] in *; congruence |].
      rewrite Hcontents, <- Hperm. symmetry. apply Permutation_cons_append.
Qed.

Lemma weak_transmit_never_drains_witness :
  let w := logged (H := weak_host) "first" (boot weak_host tt) in
  RP_Log_GetCount (H := weak_host) ADDR_g_rp_log
    (Nat.iter 5 (RP_Log_Work (H := weak_host) ADDR_g_rp_log stack_garbage 0) w)
  = 1.
Proof.
  cbv zeta.
  destruct (weak_transmit_never_drains
              (logged (H := weak_host) "first" (boot weak_host tt)) 5
              stack_garbage 0) as (_ & Hcount & _).
  - apply (reachable_logged (H := weak_host)), (reach_init (H := weak_host)).
  - rewrite Hcount. vm_compute. reflexivity.
Defined.

(** X14. flush discards without sending: it leaves the configuration and
    the transport as they were and the queue empty, whatever was buffered
    (a full buffer too); a work() call after it finds nothing to send and
    changes nothing, and a write after it that passes the filter (with a
    prefix that fits the local array) is accepted and is the only record
    buffered. *)
Theorem RP_Log_Flush_discards `{Host} (w : World) (log : RP_Log_ptr)
    (buffer : list ascii) (length : Z) :
  let flushed := RP_Log_Flush ADDR_g_rp_log w in
  config_param (g_rp_log flushed) = config_param (g_rp_log w) /\
  wire flushed = wire w /\
  rb_contents (ring_buffer (g_rp_log flushed)) = [] /\
  RP_Log_Work log buffer length flushed = flushed /\
  forall (level : RP_LogLevel_t) (file : string) (line : Z) (message : string)
         (tick : N) (local : list ascii),
    level_filtered (output_range (config_param (g_rp_log w))) level = false ->
    Z.of_nat (List.length local) = RP_LOG_ENTRY_MAX_SIZE ->
    strlen (log_prefix (config_param (g_rp_log w)) level file line tick)
      <= RP_LOG_ENTRY_MAX_SIZE ->
    exists w',
      RP_Log_Write ADDR_g_rp_log level file line message tick local flushed
      = Some (0, w') /\
      rb_contents (ring_buffer (g_rp_log w')) =
      [terminated (log_text (config_param (g_rp_log w)) level file line message tick)].
Proof.
  cbv zeta. repeat (split; [reflexivity |]).
  split; [destruct log; reflexivity |].
  intros level file line message tick local Hpass Hlocal Hfit.
  destruct (RP_Log_Write_accepted (RP_Log_Flush ADDR_g_rp_log w) level file line
              message tick local)
    as (rb' & Hret & _ & Hq & _).
  - split; cbn; [apply rb_inv_zero | apply rb_slots_wf_zero].
  - exact Hpass.
  - exact Hlocal.
  - exact Hfit.
  - cbn. consts. lia.
  - exists (set_ring_buffer (RP_Log_Flush ADDR_g_rp_log w) rb').
    split; [exact Hret | exact Hq].
Qed.

(** X14 on a full buffer: after flush the next write is accepted. *)
Lemma RP_Log_Flush_discards_witness :
  let full := Nat.iter 16 (logged (H := uart_host) "msg") (boot uart_host idle_uart) in
  RP_Log_GetCount ADDR_g_rp_log full = 16 /\
  exists w',
    RP_Log_Write (H := uart_host) ADDR_g_rp_log RP_LOG_LEVEL_INFO "main.c" 45
                 "again" 1234 stack_garbage (RP_Log_Flush ADDR_g_rp_log full)
    = Some (0, w') /\
    rb_contents (ring_buffer (g_rp_log w'))
    = [chars "[1234] [INFO ][main.c:45]: again" ++ [CR; LF]].
Proof.
  cbv zeta. split; [vm_compute; reflexivity |].
  destruct (RP_Log_Flush_discards (H := uart_host)
              (Nat.iter 16 (logged (H := uart_host) "msg") (boot uart_host idle_uart))
              ADDR_g_rp_log stack_garbage 0) as (_ & _ & _ & _ & Hwrite).
  destruct (Hwrite RP_LOG_LEVEL_INFO "main.c"%string 45 "again"%string 1234%N
              stack_garbage) as (w' & Hret & Hq).
  - vm_compute. reflexivity.
  - reflexivity.
  - vm_compute. discriminate.
  - exists w'. split; [exact Hret | exact Hq].
Defined.

(* ================================================================= *)
(** * Further properties of the file-name extraction *)

(** X15. On a path that uses one kind of separator only (no ['\'] in it, or
    no ['/'] in it) the file component [RP_Log_Write] renders is the last
    path component: everything up to and including the last separator is
    stripped, and a path without separators is kept whole. *)
Theorem extract_filename_single_separator (file : string) :
  occurs backslash file = false \/ occurs "/" file = false ->
  extract_filename file = last_component file /\
  has_separator (extract_filename file) = false.
Proof.
  intros Hone.
  assert (Hcond : match strrchr file backslash with
                  | Some slash => occurs "/" (next_char slash) = false
                  | None => True
                  end).
  { destruct (strrchr file backslash) as [slash |] eqn:Hback; [| exact I].
    destruct Hone as [Hnone | Hnone].
    - apply strrchr_none in Hnone. congruence.
    - destruct (strrchr_some file slash backslash Hback)
        as (before & after & Hslash & _ & Hfile).
      subst slash. cbn [next_char].
      rewrite Hfile, occurs_append in Hnone. cbn [occurs] in Hnone.
      apply orb_false_elim in Hnone as [_ Hnone].
      apply orb_false_elim in Hnone as [_ Hnone]. exact Hnone. }
  split; [apply extract_filename_last_component, Hcond |].
  unfold extract_filename in *.
  destruct (strrchr file backslash) as [slash |] eqn:Hback.
  - destruct (strrchr_some file slash backslash Hback)
      as (before & after & Hslash & Hno & _).
    subst slash. cbn [next_char] in *.
    rewrite has_separator_occurs, Hcond, Hno. reflexivity.
  - apply strrchr_none in Hback.
    destruct (strrchr file "/") as [slash |] eqn:Hfwd.
    + destruct (strrchr_some file slash "/" Hfwd)
        as (before & after & Hslash & Hno & Hfile).
      subst slash. cbn [next_char].
      rewrite Hfile, occurs_append in Hback. cbn [occurs] in Hback.
      apply orb_false_elim in Hback as [_ Hback].
      apply orb_false_elim in Hback as [_ Hback].
      rewrite has_separator_occurs, Hno, Hback. reflexivity.
    + apply strrchr_none in Hfwd.
      rewrite has_separator_occurs, Hfwd, Hback. reflexivity.
Qed.

Lemma extract_filename_single_separator_witness :
  extract_filename "Core/Src/main.c" = "main.c"%string /\
  extract_filename (String.append ".." (String backslash
                      (String.append "User" (String backslash "main.c"))))
  = "main.c"%string.
Proof.
  split.
  - destruct (extract_filename_single_separator "Core/Src/main.c") as [Hlast _].
    + left. reflexivity.
    + rewrite Hlast. reflexivity.
  - destruct (extract_filename_single_separator
                (String.append ".." (String backslash
                   (String.append "User" (String backslash "main.c")))))
      as [Hlast _].
    + right. reflexivity.
    + rewrite Hlast. reflexivity.
Defined.

(** X16. Whatever the path, the file component rendered is a suffix of it
    that holds no ['\']; it holds a ['/'] only when the path has a ['\']
    before that ['/']. *)
Theorem extract_filename_suffix (file : string) :
  (exists before, file = String.append before (extract_filename file)) /\
  occurs backslash (extract_filename file) = false /\
  (occurs "/" (extract_filename file) = true -> occurs backslash file = true).
Proof.
  unfold extract_filename.
  destruct (strrchr file backslash) as [slash |] eqn:Hback.
  - destruct (strrchr_some file slash backslash Hback)
      as (before & after & Hslash & Hno & Hfile).
    subst slash. cbn [next_char]. split; [| split].
    + exists (String.append before (String backslash EmptyString)).
      rewrite Hfile at 1. clear.
      induction before as [| a before IH]; [reflexivity |].
      cbn [String.append]. rewrite IH. reflexivity.
    + exact Hno.
    + intros _. rewrite Hfile, occurs_append. cbn [occurs].
      rewrite Ascii.eqb_refl. cbn [orb]. apply orb_true_r.
  - apply strrchr_none in Hback.
    destruct (strrchr file "/") as [slash |] eqn:Hfwd.
    + destruct (strrchr_some file slash "/" Hfwd)
        as (before & after & Hslash & Hno & Hfile).
      subst slash. cbn [next_char]. split; [| split].
      * exists (String.append before (String "/" EmptyString)).
        rewrite Hfile at 1. clear.
        induction before as [| a before IH]; [reflexivity |].
        cbn [String.append]. rewrite IH. reflexivity.
      * rewrite Hfile, occurs_append in Hback. cbn [occurs] in Hback.
        apply orb_false_elim in Hback as [_ Hback].
        apply orb_false_elim in Hback as [_ Hback]. exact Hback.
      * intros Hhas. congruence.
    + split; [exists EmptyString; reflexivity |]. split; [exact Hback |].
      apply strrchr_none in Hfwd. intros Hhas. congruence.
Qed.

(* ================================================================= *)
(** * Properties of the RTT output *)

#[local] Ltac render_first :=
  rewrite snprintf_first; cbn [mbind option_bind]; rewrite <- ?chars_length.

#[local] Ltac render_next :=
  rewrite snprintf_next
    by (rewrite ?length_app, ?Nat2Z.inj_add; lia);
  cbn [mbind option_bind]; rewrite <- ?chars_length.

(** [RP_Log_RttOutput] when its prefix fits the static array: the array
    ends up holding the terminated text. *)
Lemma RP_Log_RttOutput_renders `{Host} (w : World) (level : RP_LogLevel_t)
    (file : string) (line : Z) (message : string) (tick : N)
    (rtt_buf : list ascii) :
  strlen (rtt_prefix (config_param (g_rp_log w)) level file line tick)
    <= RP_LOG_ENTRY_MAX_SIZE ->
  RP_Log_RttOutput level file line message tick rtt_buf w =
  let text :=
    chars (String.append
             (rtt_prefix (config_param (g_rp_log w)) level file line tick)
             message) in
  let len := kept_length (Z.of_nat (length text)) in
  Some (store (store (written rtt_buf text) len CR) (len + 1) LF, len + 1 + 1).
Proof.
  intros Hfit. unfold RP_Log_RttOutput.
  change (snprintf rtt_buf 0 RP_LOG_ENTRY_MAX_SIZE)
    with (snprintf rtt_buf 0 (RP_LOG_ENTRY_MAX_SIZE - 0)).
  unfold rtt_prefix, log_prefix in *. rewrite <- chars_length in Hfit.
  destruct (negb (rtt_use_color (config_param (g_rp_log w)) =? 0));
    destruct (negb (use_timestamp (config_param (g_rp_log w)) =? 0) && USE_HAL_DRIVER);
    cbn [String.append mbind option_bind] in *;
    rewrite ?chars_app, ?length_app, ?Nat2Z.inj_add in Hfit.
  - render_first. render_next. render_next. render_next. render_next.
    cbv zeta. unfold kept_length.
    rewrite !chars_app, <- !app_assoc, !length_app, !Nat2Z.inj_add.
    rewrite Z.add_0_l, <- !Z.add_assoc. reflexivity.
  - render_first. render_next. render_next. render_next.
    cbv zeta. unfold kept_length.
    rewrite !chars_app, <- !app_assoc, !length_app, !Nat2Z.inj_add.
    rewrite Z.add_0_l, <- !Z.add_assoc. reflexivity.
  - render_first. render_next. render_next.
    cbv zeta. unfold kept_length.
    rewrite !chars_app, <- !app_assoc, !length_app, !Nat2Z.inj_add.
    rewrite Z.add_0_l, <- !Z.add_assoc. reflexivity.
  - render_first. render_next.
    cbv zeta. unfold kept_length.
    rewrite !chars_app, <- !app_assoc, !length_app, !Nat2Z.inj_add.
    rewrite Z.add_0_l, <- !Z.add_assoc. reflexivity.
Qed.

#[local] Ltac render_or_overflow :=
  match goal with
  | |- context [snprintf (written ?b ?d) ?at_ _ _] =>
      destruct (Z_le_gt_dec at_ RP_LOG_ENTRY_MAX_SIZE);
      [ render_next | rewrite snprintf_overflow by lia; reflexivity ]
  end.

(** A prefix longer than the static array makes a [snprintf] call of
    [RP_Log_RttOutput] store outside it. *)
Lemma RP_Log_RttOutput_overflow `{Host} (w : World) (level : RP_LogLevel_t)
    (file : string) (line : Z) (message : string) (tick : N)
    (rtt_buf : list ascii) :
  RP_LOG_ENTRY_MAX_SIZE
    < strlen (rtt_prefix (config_param (g_rp_log w)) level file line tick) ->
  RP_Log_RttOutput level file line message tick rtt_buf w = None.
Proof.
  intros Hover. unfold RP_Log_RttOutput.
  change (snprintf rtt_buf 0 RP_LOG_ENTRY_MAX_SIZE)
    with (snprintf rtt_buf 0 (RP_LOG_ENTRY_MAX_SIZE - 0)).
  unfold rtt_prefix, log_prefix in *. rewrite <- chars_length in Hover.
  destruct (negb (rtt_use_color (config_param (g_rp_log w)) =? 0));
    destruct (negb (use_timestamp (config_param (g_rp_log w)) =? 0) && USE_HAL_DRIVER);
    cbn [String.append mbind option_bind] in *;
    rewrite ?chars_app, ?length_app, ?Nat2Z.inj_add in Hover;
    change (length (chars EmptyString)) with 0%nat in Hover;
    render_first; repeat render_or_overflow; exfalso; lia.
Qed.

Lemma rtt_line_ok (rtt_buf text : list ascii) :
  Z.of_nat (length rtt_buf) = RP_LOG_ENTRY_MAX_SIZE ->
  let len := kept_length (Z.of_nat (length text)) in
  let final := store (store (written rtt_buf text) len CR) (len + 1) LF in
  take (Z.to_nat (len + 1 + 1)) final = terminated text /\
  Z.of_nat (length final) = RP_LOG_ENTRY_MAX_SIZE.
Proof.
  intros Hbuf len final.
  destruct (terminated_in_buffer rtt_buf text Hbuf) as [Htake _].
  split; [exact Htake |].
  unfold final, store. rewrite !length_insert, written_length by exact Hbuf.
  exact Hbuf.
Qed.

(** X17. Whenever [RP_Log_RttOutput] is defined (its prefix, colour codes
    included, fits the static array) it hands [SEGGER_RTT_Write] a line of
    2 to [RP_LOG_ENTRY_MAX_SIZE - 1] bytes that ends with CR LF, and the
    static array keeps its size.  With colours on, a line of at most 253
    bytes is the colour code of the level, the prefix write renders, the
    colour reset, then the message: only the prefix is coloured. *)
Theorem RP_Log_RttOutput_line `{Host} (w : World) (level : RP_LogLevel_t)
    (file : string) (line : Z) (message : string) (tick : N)
    (rtt_buf rtt_buf' : list ascii) (rtt_len : Z) :
  Z.of_nat (length rtt_buf) = RP_LOG_ENTRY_MAX_SIZE ->
  RP_Log_RttOutput level file line message tick rtt_buf w = Some (rtt_buf', rtt_len) ->
  let cfg := config_param (g_rp_log w) in
  Z.of_nat (length rtt_buf') = RP_LOG_ENTRY_MAX_SIZE /\
  record_ok (take (Z.to_nat rtt_len) rtt_buf') /\
  (rtt_use_color cfg <> 0 ->
   strlen (String.append (rtt_prefix cfg level file line tick) message)
     <= RP_LOG_ENTRY_MAX_SIZE - 3 ->
   take (Z.to_nat rtt_len) rtt_buf' =
   chars (g_level_colors level) ++ chars (log_prefix cfg level file line tick)
     ++ chars RP_LOG_COLOR_RESET ++ chars message ++ [CR; LF]).
Proof.
  intros Hbuf Hout cfg.
  destruct (Z_le_gt_dec (strlen (rtt_prefix cfg level file line tick))
                        RP_LOG_ENTRY_MAX_SIZE) as [Hfit | Hover];
    [| rewrite RP_Log_RttOutput_overflow in Hout by (unfold cfg in *; lia);
       discriminate].
  rewrite RP_Log_RttOutput_renders in Hout by exact Hfit. cbv zeta in Hout.
  fold cfg in Hout.
  set (text := chars (String.append (rtt_prefix cfg level file line tick) message)) in *.
  destruct (rtt_line_ok rtt_buf text Hbuf) as [Htake Hlen].
  cbv zeta in Htake, Hlen.
  inversion Hout; subst rtt_buf' rtt_len.
  split; [exact Hlen |]. rewrite Htake. split; [apply terminated_ok |].
  intros Hcolor Hshort.
  unfold terminated, kept_length. rewrite <- chars_length in Hshort. fold text in Hshort.
  destruct (Z.leb_spec (RP_LOG_ENTRY_MAX_SIZE - 2) (Z.of_nat (length text)));
    [lia |].
  rewrite Nat2Z.id, firstn_all. unfold text, rtt_prefix.
  apply Z.eqb_neq in Hcolor. rewrite Hcolor. cbn [negb].
  rewrite !chars_app, <- !app_assoc. reflexivity.
Qed.

Lemma RP_Log_RttOutput_line_witness :
  exists rtt_buf' rtt_len,
    RP_Log_RttOutput (H := uart_host) RP_LOG_LEVEL_INFO "main.c" 45 "hello" 77
                     stack_garbage (boot uart_host idle_uart)
    = Some (rtt_buf', rtt_len) /\
    take (Z.to_nat rtt_len) rtt_buf' =
    chars (String ESC "[1;32m[77] [INFO ][main.c:45]: ")
      ++ chars (String ESC "[0mhello") ++ [CR; LF].
Proof.
  destruct (RP_Log_RttOutput (H := uart_host) RP_LOG_LEVEL_INFO "main.c" 45
              "hello" 77 stack_garbage (boot uart_host idle_uart))
    as [[rtt_buf' rtt_len] |] eqn:Hout; [| vm_compute in Hout; discriminate].
  exists rtt_buf', rtt_len. split; [reflexivity |].
  destruct (RP_Log_RttOutput_line (H := uart_host) (boot uart_host idle_uart)
              RP_LOG_LEVEL_INFO "main.c" 45 "hello" 77 stack_garbage
              rtt_buf' rtt_len) as (_ & _ & Hlayout).
  - reflexivity.
  - exact Hout.
  - rewrite Hlayout; [reflexivity | discriminate | vm_compute; discriminate].
Defined.

Lemma rtt_text_plain `{Host} (cfg : RP_LogConfigParam_t) (level : RP_LogLevel_t)
    (file : string) (line : Z) (message : string) (tick : N) :
  rtt_use_color cfg = 0 ->
  chars (String.append (rtt_prefix cfg level file line tick) message)
  = log_text cfg level file line message tick.
Proof.
  intros Hplain. unfold rtt_prefix, log_text. rewrite Hplain.
  cbn [Z.eqb negb String.append].
  rewrite !chars_app. change (chars EmptyString) with (@nil ascii).
  rewrite app_nil_r. reflexivity.
Qed.

(** What a defined call of [RP_Log_RttOutput] hands over. *)
Lemma RP_Log_RttOutput_some `{Host} (w : World) (level : RP_LogLevel_t)
    (file : string) (line : Z) (message : string) (tick : N)
    (rtt_buf rtt_buf' : list ascii) (rtt_len : Z) :
  Z.of_nat (length rtt_buf) = RP_LOG_ENTRY_MAX_SIZE ->
  RP_Log_RttOutput level file line message tick rtt_buf w = Some (rtt_buf', rtt_len) ->
  Z.of_nat (length rtt_buf') = RP_LOG_ENTRY_MAX_SIZE /\
  take (Z.to_nat rtt_len) rtt_buf' =
  terminated (chars (String.append
                       (rtt_prefix (config_param (g_rp_log w)) level file line tick)
                       message)).
Proof.
  intros Hbuf Hout.
  destruct (Z_le_gt_dec
              (strlen (rtt_prefix (config_param (g_rp_log w)) level file line tick))
              RP_LOG_ENTRY_MAX_SIZE) as [Hfit | Hover];
    [| rewrite RP_Log_RttOutput_overflow in Hout by lia; discriminate].
  rewrite RP_Log_RttOutput_renders in Hout by exact Hfit. cbv zeta in Hout.
  destruct (rtt_line_ok rtt_buf
              (chars (String.append
                        (rtt_prefix (config_param (g_rp_log w)) level file line tick)
                        message)) Hbuf) as [Htake Hlen].
  cbv zeta in Htake, Hlen.
  inversion Hout; subst rtt_buf' rtt_len. split; [exact Hlen | exact Htake].
Qed.

(** X18. In a build with RTT, a line goes to RTT exactly when write returns
    0: a call that returns -1 (null pointer, filtered level, or a message
    dropped because the buffer is full) changes neither the facility nor
    the RTT side, and a call that returns 0 buffers the record as without
    RTT and hands [SEGGER_RTT_Write] one line, which ends with CR LF and is
    at most [RP_LOG_ENTRY_MAX_SIZE - 1] bytes long. *)
Theorem RP_Log_Write_rtt_outcome `{Host} (w w' : World) (r r' : rtt_state)
    (log : RP_Log_ptr) (level : RP_LogLevel_t) (file : string) (line : Z)
    (message : string) (tick tick_rtt : N) (buffer : list ascii) (ret : Z) :
  reachable w ->
  Z.of_nat (length buffer) = RP_LOG_ENTRY_MAX_SIZE ->
  Z.of_nat (length (rtt_static r)) = RP_LOG_ENTRY_MAX_SIZE ->
  RP_Log_Write_rtt log level file line message tick tick_rtt buffer w r
  = Some (ret, w', r') ->
  RP_Log_Write log level file line message tick buffer w = Some (ret, w') /\
  (ret = 0 \/ ret = -1) /\
  (ret = -1 -> w' = w /\ r' = r) /\
  (ret = 0 ->
   Z.of_nat (length (rtt_static r')) = RP_LOG_ENTRY_MAX_SIZE /\
   exists rtt_line,
     rtt_channel r' = rtt_channel r ++ [rtt_line] /\ record_ok rtt_line).
Proof.
  intros Hreach Hbuf Hstatic Hrtt. unfold RP_Log_Write_rtt in Hrtt.
  destruct (RP_Log_Write log level file line message tick buffer w)
    as [[ret0 w0] |] eqn:Hwrite; [| discriminate].
  cbn [mbind option_bind] in Hrtt.
  pose proof (RP_Log_Write_cases w w0 log level file line message tick buffer
                ret0 (reachable_inv w Hreach) Hbuf Hwrite) as Hcases.
  destruct (Z.eqb_spec ret0 0) as [Hzero | Hnonzero].
  - destruct (RP_Log_RttOutput level file line message tick_rtt (rtt_static r) w0)
      as [[rtt_buf rtt_len] |] eqn:Hout; [| discriminate].
    cbn [mbind option_bind] in Hrtt. inversion Hrtt; subst ret w' r' ret0.
    destruct (RP_Log_RttOutput_some w0 level file line message tick_rtt
                (rtt_static r) rtt_buf rtt_len Hstatic Hout) as [Hlen Htake].
    split; [reflexivity |]. split; [left; reflexivity |].
    split; [discriminate |]. intros _. cbn [rtt_static rtt_channel].
    split; [exact Hlen |]. eexists. split; [reflexivity |].
    rewrite Htake. apply terminated_ok.
  - inversion Hrtt; subst ret w' r'.
    destruct Hcases as [(Hret & Hsame & _) | (Hret & _)]; [| contradiction].
    split; [reflexivity |]. split; [right; exact Hret |].
    split; [intros _; split; [exact Hsame | reflexivity] |].
    intros Hz. contradiction.
Qed.

Lemma RP_Log_Write_rtt_outcome_witness :
  let full := Nat.iter 16 (logged (H := uart_host) "msg") (boot uart_host idle_uart) in
  let quiet := {| rtt_static := stack_garbage; rtt_channel := [] |} in
  RP_Log_Write_rtt (H := uart_host) ADDR_g_rp_log RP_LOG_LEVEL_INFO "main.c" 45
                   "late" 1234 1235 stack_garbage full quiet
  = Some (-1, full, quiet).
Proof.
  cbv zeta.
  destruct (RP_Log_Write_rtt (H := uart_host) ADDR_g_rp_log RP_LOG_LEVEL_INFO
              "main.c" 45 "late" 1234 1235 stack_garbage
              (Nat.iter 16 (logged (H := uart_host) "msg") (boot uart_host idle_uart))
              {| rtt_static := stack_garbage; rtt_channel := [] |})
    as [[[ret w'] r'] |] eqn:Hrtt; [| vm_compute in Hrtt; discriminate].
  destruct (RP_Log_Write_rtt_outcome (H := uart_host)
              (Nat.iter 16 (logged (H := uart_host) "msg") (boot uart_host idle_uart))
              w' {| rtt_static := stack_garbage; rtt_channel := [] |} r'
              ADDR_g_rp_log RP_LOG_LEVEL_INFO "main.c" 45 "late" 1234 1235
              stack_garbage ret)
    as (Hwrite & _ & Hminus & _);
    [ change (reachable (H := uart_host)
                (Nat.iter 16 (logged (H := uart_host) "msg")
                   (boot uart_host idle_uart)));
      cbn [Nat.iter nat_rect];
      do 16 apply (reachable_logged (H := uart_host));
      apply (reach_init (H := uart_host))
    | reflexivity | reflexivity | exact Hrtt | ].
  assert (Hret : ret = -1).
  { rewrite (RP_Log_Write_full (H := uart_host)) in Hwrite;
      [congruence | reflexivity | vm_compute; discriminate
       | vm_compute; discriminate]. }
  destruct (Hminus Hret) as [Hw Hr]. subst. reflexivity.
Defined.

(** X19. With colours off, the line a write hands to RTT is byte for byte
    the record it has just buffered, provided both calls of
    [HAL_GetTick()] return the same tick (or timestamps are off). *)
Theorem rtt_line_equals_record `{Host} (w w' : World) (r r' : rtt_state)
    (level : RP_LogLevel_t) (file : string) (line : Z) (message : string)
    (tick : N) (buffer : list ascii) :
  reachable w ->
  Z.of_nat (length buffer) = RP_LOG_ENTRY_MAX_SIZE ->
  Z.of_nat (length (rtt_static r)) = RP_LOG_ENTRY_MAX_SIZE ->
  rtt_use_color (config_param (g_rp_log w)) = 0 ->
  RP_Log_Write_rtt ADDR_g_rp_log level file line message tick tick buffer w r
  = Some (0, w', r') ->
  rtt_channel r' = rtt_channel r ++ [newest (ring_buffer (g_rp_log w'))].
Proof.
  intros Hreach Hbuf Hstatic Hplain Hrtt. unfold RP_Log_Write_rtt in Hrtt.
  destruct (RP_Log_Write ADDR_g_rp_log level file line message tick buffer w)
    as [[ret0 w0] |] eqn:Hwrite; [| discriminate].
  cbn [mbind option_bind] in Hrtt.
  destruct (Z.eqb_spec ret0 0) as [Hzero | Hnonzero];
    [| inversion Hrtt; congruence].
  destruct (RP_Log_RttOutput level file line message tick (rtt_static r) w0)
    as [[rtt_buf rtt_len] |] eqn:Hout; [| discriminate].
  cbn [mbind option_bind] in Hrtt. inversion Hrtt; subst w' r' ret0.
  destruct (RP_Log_Write_cases w w0 ADDR_g_rp_log level file line message tick
              buffer 0 (reachable_inv w Hreach) Hbuf Hwrite)
    as [(Hret & _) | (_ & _ & _ & _ & rb' & Hw0 & _ & Hq)]; [discriminate |].
  destruct (RP_Log_RttOutput_some w0 level file line message tick
              (rtt_static r) rtt_buf rtt_len Hstatic Hout) as [_ Htake].
  cbn [rtt_channel]. rewrite Htake. subst w0.
  cbn [set_ring_buffer g_rp_log config_param ring_buffer].
  rewrite rtt_text_plain by exact Hplain.
  unfold newest. rewrite Hq, last_last. reflexivity.
Qed.

Lemma rtt_line_equals_record_witness :
  let w := with_config (boot uart_host idle_uart)
             {| output_range := RP_LOG_OUTPUT_ALL;
                use_timestamp := 1; rtt_use_color := 0 |} in
  exists w' r',
    RP_Log_Write_rtt (H := uart_host) ADDR_g_rp_log RP_LOG_LEVEL_INFO "main.c" 45
                     "hello" 77 77 stack_garbage w
                     {| rtt_static := stack_garbage; rtt_channel := [] |}
    = Some (0, w', r') /\
    rtt_channel r' = [chars "[77] [INFO ][main.c:45]: hello" ++ [CR; LF]] /\
    rb_contents (ring_buffer (g_rp_log w')) = rtt_channel r'.
Proof.
  cbv zeta.
  destruct (RP_Log_Write_rtt (H := uart_host) ADDR_g_rp_log RP_LOG_LEVEL_INFO
              "main.c" 45 "hello" 77 77 stack_garbage
              (with_config (boot uart_host idle_uart)
                 {| output_range := RP_LOG_OUTPUT_ALL;
                    use_timestamp := 1; rtt_use_color := 0 |})
              {| rtt_static := stack_garbage; rtt_channel := [] |})
    as [[[ret w'] r'] |] eqn:Hrtt; [| vm_compute in Hrtt; discriminate].
  assert (Hret : ret = 0) by (vm_compute in Hrtt; congruence).
  subst ret. exists w', r'. split; [reflexivity |].
  pose proof (rtt_line_equals_record (H := uart_host)
                (with_config (boot uart_host idle_uart)
                   {| output_range := RP_LOG_OUTPUT_ALL;
                      use_timestamp := 1; rtt_use_color := 0 |})
                w' {| rtt_static := stack_garbage; rtt_channel := [] |} r'
                RP_LOG_LEVEL_INFO "main.c" 45 "hello" 77 stack_garbage
                (reach_config (H := uart_host) _ _
                   (reach_init (H := uart_host) idle_uart))
                eq_refl eq_refl eq_refl Hrtt)
    as Hline.
  rewrite Hline. cbn [rtt_channel app].
  vm_compute in Hrtt. inversion Hrtt; subst w' r'.
  split; vm_compute; reflexivity.
Defined.
